(** * akf-nextjs-test: a shallow embedding of the todo application

    Sources embedded here:
    - [actions/todo-actions.ts]: [createTodo], [removeTodo], [updateTodoStatus];
    - [app/page.tsx]: the server component [Home];
    - [app/_components/todo-list.tsx]: the client component [TodoList] and its
      [addTodo] handler;
    - the debounce effect of the README ("URL-Based State").

    JavaScript strings are kept as their UTF-8 byte sequences ([string]). A
    JavaScript string may hold a surrogate that has no partner, which UTF-8
    proper cannot carry; such a code unit is kept as the three bytes its code
    point would take, [ED A0..BF 80..BF] (see [well_formed] and
    [utf8_encode]). Strings are only ever joined at an ASCII character.
    Asynchronous functions are run to completion: an [await] is a bind of the
    effect monad [M], a rejected promise is an abrupt completion [Throws]. *)

From Stdlib Require Import String Ascii List Bool Arith Lia.
Import ListNotations.
Open Scope string_scope.
Set Warnings "-register-all".

(** ** JavaScript values and completions *)

Module Js.

(** A value produced by [JSON.parse]. A number is kept as the text that
    [Number.prototype.toString] gives for it. *)
Inductive json : Type :=
| JNull
| JBool (b : bool)
| JNum (repr : string)
| JStr (s : string)
| JArr (xs : list json)
| JObj (fields : list (string * json)).

(** What a [throw] carries: an [Error] instance with its [message], or any
    other value (for which [instanceof Error] is false). *)
Inductive thrown : Type :=
| ErrorObj (message : string)
| NonError.

Inductive completion (A : Type) : Type :=
| Returns (a : A)
| Throws (e : thrown).
Arguments Returns {A} a.
Arguments Throws {A} e.

(** [String(v)], the conversion [new Error(v)] applies to its argument. *)
Fixpoint js_String (v : json) : string :=
  match v with
  | JNull => "null"
  | JBool true => "true"
  | JBool false => "false"
  | JNum r => r
  | JStr s => s
  | JArr xs =>
      (fix join (l : list json) : string :=
         match l with
         | [] => ""
         | x :: rest =>
             let here := match x with JNull => "" | _ => js_String x end in
             match rest with
             | [] => here
             | _ :: _ => here ++ "," ++ join rest
             end
         end) xs
  | JObj _ => "[object Object]"
  end.

Fixpoint assoc {A : Type} (k : string) (l : list (string * A)) : option A :=
  match l with
  | [] => None
  | (k', v) :: rest => if String.eqb k k' then Some v else assoc k rest
  end.

(** [a ?? b]: [None] stands for [undefined]. *)
Definition nullish (a : option json) (b : json) : json :=
  match a with
  | None => b
  | Some JNull => b
  | Some v => v
  end.

(** [s ?? ""] on an optional string. *)
Definition nullish_str (a : option string) (b : string) : string :=
  match a with
  | None => b
  | Some s => s
  end.

(** [new Error(v)] *)
Definition new_Error (v : json) : thrown := ErrorObj (js_String v).

End Js.
Import Js.

(** ** The todo type, [types/todo.ts] *)

Inductive Status : Type := pending | completed.

Definition status_string (s : Status) : string :=
  match s with
  | pending => "pending"
  | completed => "completed"
  end.

Record Todo : Type := {
  todo_id : string;
  todo_task : string;
  todo_status : Status;
  todo_createdAt : option string;
  todo_updatedAt : option string
}.

(** [Partial<Todo>] *)
Record PartialTodo : Type := {
  p_id : option string;
  p_task : option string;
  p_status : option Status;
  p_createdAt : option string;
  p_updatedAt : option string
}.

Definition opt_field (k : string) (v : option json) : list (string * json) :=
  match v with
  | None => []
  | Some j => [(k, j)]
  end.

(** The value [JSON.stringify(todo)] serialises. *)
Definition json_of_partial (t : PartialTodo) : json :=
  JObj (opt_field "id" (option_map JStr (p_id t))
        ++ opt_field "task" (option_map JStr (p_task t))
        ++ opt_field "status"
             (option_map (fun s => JStr (status_string s)) (p_status t))
        ++ opt_field "createdAt" (option_map JStr (p_createdAt t))
        ++ opt_field "updatedAt" (option_map JStr (p_updatedAt t)))%list.

(** ** Effects: [fetch], [console.log], [revalidatePath], [toast] *)

Module Eff.

Record request : Type := {
  req_method : string;
  req_url : string;
  req_headers : list (string * string);
  req_body : option json
}.

(** A [Response]: its [ok] flag and what [response.json()] settles to. *)
Record response : Type := {
  ok : bool;
  body_json : completion json
}.

(** [fetch] resolves with a response or rejects (transport failure). *)
Inductive fetch_result : Type :=
| FetchRejected (e : thrown)
| FetchResponse (r : response).

Record env : Type := {
  BASE_URL : string;
  network : request -> fetch_result
}.

Inductive toast_msg : Type :=
| ToastSuccess (msg : string)
| ToastError (msg : string).

Inductive effect : Type :=
| EFetch (r : request)
| EConsoleLog (v : json)
| ERevalidatePath (path : string)
| EToast (t : toast_msg).

(** A computation reads the environment, performs effects in order, and
    completes normally or abruptly. *)
Definition M (A : Type) : Type := env -> list effect * completion A.

Definition ret {A} (a : A) : M A := fun _ => ([], Returns a).

Definition throw {A} (e : thrown) : M A := fun _ => ([], Throws e).

Definition bind {A B} (m : M A) (k : A -> M B) : M B :=
  fun w =>
    match m w with
    | (l1, Returns a) => let (l2, c) := k a w in ((l1 ++ l2)%list, c)
    | (l1, Throws e) => (l1, Throws e)
    end.

(** [try { m } catch (error) { h error }] *)
Definition try_catch {A} (m : M A) (h : thrown -> M A) : M A :=
  fun w =>
    match m w with
    | (l1, Returns a) => (l1, Returns a)
    | (l1, Throws e) => let (l2, c) := h e w in ((l1 ++ l2)%list, c)
    end.

Definition emit (e : effect) : M unit := fun _ => ([e], Returns tt).

Definition getenv_BASE_URL : M string := fun w => ([], Returns (BASE_URL w)).

Definition fetch (r : request) : M response :=
  fun w =>
    ([EFetch r],
     match network w r with
     | FetchRejected e => Throws e
     | FetchResponse resp => Returns resp
     end).

Definition response_json (r : response) : M json := fun _ => ([], body_json r).

Definition console_log (v : json) : M unit := emit (EConsoleLog v).

Definition revalidatePath (p : string) : M unit := emit (ERevalidatePath p).

Definition toast_success (m : string) : M unit := emit (EToast (ToastSuccess m)).

Definition toast_error (m : string) : M unit := emit (EToast (ToastError m)).

(** [v.k] for a key [k] that no prototype defines (["error"], ["data"]):
    reading a property of [null] throws a [TypeError]; a primitive or an
    array has no such property. [None] stands for [undefined]. *)
Definition get_prop (v : json) (k : string) : M (option json) :=
  match v with
  | JNull =>
      throw (ErrorObj ("Cannot read properties of null (reading '" ++ k ++ "')"))
  | JObj fs => ret (assoc k fs)
  | _ => ret None
  end.

(** [if (c) { m }] *)
Definition when (c : bool) (m : M unit) : M unit := if c then m else ret tt.

End Eff.
Import Eff.

Declare Scope js_scope.
Delimit Scope js_scope with js.
Notation "x <- m ;; k" := (bind m (fun x => k))
  (at level 61, m at next level, right associativity) : js_scope.
Notation "m ;;; k" := (bind m (fun _ => k))
  (at level 61, right associativity) : js_scope.
Open Scope js_scope.

(** The effects a run performed and the completion it ended with. *)
Definition effects_of {A} (r : list effect * completion A) : list effect := fst r.
Definition completion_of {A} (r : list effect * completion A) : completion A := snd r.

Definition is_revalidate (e : effect) : bool :=
  match e with ERevalidatePath _ => true | _ => false end.
Definition is_fetch (e : effect) : bool :=
  match e with EFetch _ => true | _ => false end.

Definition revalidations (l : list effect) : list effect := filter is_revalidate l.
Definition fetches (l : list effect) : list effect := filter is_fetch l.

Fixpoint toasts (l : list effect) : list toast_msg :=
  match l with
  | [] => []
  | EToast t :: rest => t :: toasts rest
  | _ :: rest => toasts rest
  end.

(** ** [actions/todo-actions.ts] *)

(** The object every action returns: [{ success, error? }]. *)
Record action_result : Type := {
  success : bool;
  error : option string
}.

Definition json_headers : list (string * string) :=
  [("Content-Type", "application/json")].

(** The three requests: [POST /items], [DELETE /items/:id], [PUT /items/:id]. *)
Definition post_items (base : string) (todo : PartialTodo) : request :=
  {| req_method := "POST";
     req_url := base ++ "/items";
     req_headers := json_headers;
     req_body := Some (json_of_partial todo) |}.

Definition delete_item (base id : string) : request :=
  {| req_method := "DELETE";
     req_url := base ++ "/items/" ++ id;
     req_headers := json_headers;
     req_body := None |}.

(** [status === "pending" ? "completed" : "pending"], the status that
    [updateTodoStatus] writes. *)
Definition toggled (status : string) : string :=
  if String.eqb status "pending" then "completed" else "pending".

Definition put_item (base id status : string) : request :=
  {| req_method := "PUT";
     req_url := base ++ "/items/" ++ id;
     req_headers := json_headers;
     req_body := Some (JObj [("status", JStr (toggled status))]) |}.

Definition createTodo (todo : PartialTodo) : M action_result :=
  try_catch
    (base <- getenv_BASE_URL ;;
     response <- fetch (post_items base todo) ;;
     result <- response_json response ;;
     console_log result ;;;
     when (negb (ok response))
          (e <- get_prop result "error" ;;
           throw (new_Error (nullish e (JStr "Unable to create todo")))) ;;;
     revalidatePath "/" ;;;
     ret {| success := true; error := None |})
    (fun error =>
       ret {| success := false;
              error := Some (match error with
                             | ErrorObj message => message
                             | NonError => "Internal server error"
                             end) |}).

Definition removeTodo (id : string) : M action_result :=
  try_catch
    (base <- getenv_BASE_URL ;;
     response <- fetch (delete_item base id) ;;
     result <- response_json response ;;
     console_log result ;;;
     when (negb (ok response))
          (e <- get_prop result "error" ;;
           throw (new_Error (nullish e (JStr "Unable to create todo")))) ;;;
     revalidatePath "/" ;;;
     ret {| success := true; error := None |})
    (fun error =>
       ret {| success := false;
              error := Some (match error with
                             | ErrorObj message => message
                             | NonError => "Internal server error"
                             end) |}).

Definition updateTodoStatus (id : string) (status : string) : M action_result :=
  try_catch
    (base <- getenv_BASE_URL ;;
     response <- fetch (put_item base id status) ;;
     result <- response_json response ;;
     console_log result ;;;
     when (negb (ok response))
          (e <- get_prop result "error" ;;
           throw (new_Error (nullish e (JStr "Unable to create todo")))) ;;;
     revalidatePath "/" ;;;
     ret {| success := true; error := None |})
    (fun error =>
       ret {| success := false;
              error := Some (match error with
                             | ErrorObj message => message
                             | NonError => "Internal server error"
                             end) |}).

(** The two shapes of an action's result. *)
Definition succeeded : action_result := {| success := true; error := None |}.
Definition failed (message : string) : action_result :=
  {| success := false; error := Some message |}.

(** The other value of the status enum. *)
Definition opposite (s : Status) : Status :=
  match s with
  | pending => completed
  | completed => pending
  end.

(** Whether the reply to a request is an HTTP success whose body parses:
    the replies after which an action reaches [revalidatePath]. *)
Definition accepted (r : fetch_result) : bool :=
  match r with
  | FetchResponse {| ok := true; body_json := Returns _ |} => true
  | _ => false
  end.

(** An environment in which every request gets the same reply. *)
Definition env_reply (r : fetch_result) : env :=
  {| BASE_URL := "http://localhost:8000"; network := fun _ => r |}.

(** [201 Created] and [204 No Content] with an empty body: [response.json()]
    rejects with a [SyntaxError]. *)
Definition success_empty_body : fetch_result :=
  FetchResponse {| ok := true;
                   body_json := Throws (ErrorObj "Unexpected end of JSON input") |}.

(** [400] with the body [{"error": "task required"}]. *)
Definition task_required : fetch_result :=
  FetchResponse {| ok := false;
                   body_json := Returns (JObj [("error", JStr "task required")]) |}.

(** The API cannot be reached: [fetch] rejects with a [TypeError]. *)
Definition unreachable : fetch_result :=
  FetchRejected (ErrorObj "fetch failed").

(** ** The platform's URL query strings

    [URLSearchParams] and the reading of a URL's query are the platform's,
    not the repository's; they follow the URL Standard's
    application/x-www-form-urlencoded serialiser and parser, on bytes. *)

Module Url.

Definition hex_digit (n : nat) : ascii :=
  match n with
  | 0 => "0" | 1 => "1" | 2 => "2" | 3 => "3" | 4 => "4" | 5 => "5"
  | 6 => "6" | 7 => "7" | 8 => "8" | 9 => "9" | 10 => "A" | 11 => "B"
  | 12 => "C" | 13 => "D" | 14 => "E" | _ => "F"
  end%char.

Definition hex_value (c : ascii) : option nat :=
  let n := nat_of_ascii c in
  if ((48 <=? n) && (n <=? 57))%nat then Some (n - 48)
  else if ((65 <=? n) && (n <=? 70))%nat then Some (n - 55)
  else if ((97 <=? n) && (n <=? 102))%nat then Some (n - 87)
  else None.

(** Bytes the serialiser leaves as they are: ASCII alphanumerics and
    [*], [-], [.], [_]. *)
Definition is_unreserved (c : ascii) : bool :=
  let n := nat_of_ascii c in
  (((48 <=? n) && (n <=? 57)) || ((65 <=? n) && (n <=? 90))
   || ((97 <=? n) && (n <=? 122))
   || (n =? 42) || (n =? 45) || (n =? 46) || (n =? 95))%nat.

Definition encode_byte (c : ascii) : string :=
  if Ascii.eqb c " " then "+"
  else if is_unreserved c then String c ""
  else let n := nat_of_ascii c in
       String "%" (String (hex_digit (n / 16)) (String (hex_digit (n mod 16)) "")).

Fixpoint form_encode (s : string) : string :=
  match s with
  | EmptyString => ""
  | String c r => encode_byte c ++ form_encode r
  end.

Fixpoint plus_to_space (s : string) : string :=
  match s with
  | EmptyString => ""
  | String c r => String (if Ascii.eqb c "+" then " "%char else c) (plus_to_space r)
  end.

(** Percent-decoding: a [%] not followed by two hex digits stays as it is. *)
Fixpoint percent_decode (s : string) : string :=
  match s with
  | EmptyString => ""
  | String c r =>
      if Ascii.eqb c "%" then
        match r with
        | String h (String l r') =>
            match hex_value h, hex_value l with
            | Some a, Some b => String (ascii_of_nat (16 * a + b)) (percent_decode r')
            | _, _ => String c (percent_decode r)
            end
        | _ => String c (percent_decode r)
        end
      else String c (percent_decode r)
  end.

Definition form_decode (s : string) : string := percent_decode (plus_to_space s).

(** *** UTF-8, as the platform encodes and decodes it *)

Definition byte_in (lo hi : nat) (c : ascii) : bool :=
  ((lo <=? nat_of_ascii c) && (nat_of_ascii c <=? hi))%nat.

(** A continuation byte, [80..BF]. *)
Definition continuation (c : ascii) : bool := byte_in 128 191 c.

(** U+FFFD, the replacement character: [EF BF BD]. *)
Definition replacement : string :=
  String (ascii_of_nat 239) (String (ascii_of_nat 191) (String (ascii_of_nat 189) "")).

(** What the first byte of a sequence announces: a one-byte character, a
    sequence of two, three or four bytes (with the bounds of its second
    byte), or a byte that cannot start a sequence. *)
Inductive lead_class : Type :=
| Single
| Two
| Three (lower upper : nat)
| Four (lower upper : nat)
| Stray.

Definition classify (a : ascii) : lead_class :=
  let n := nat_of_ascii a in
  if (n <=? 127)%nat then Single
  else if ((194 <=? n) && (n <=? 223))%nat then Two
  else if (n =? 224)%nat then Three 160 191
  else if (n =? 237)%nat then Three 128 159
  else if ((225 <=? n) && (n <=? 239))%nat then Three 128 191
  else if (n =? 240)%nat then Four 144 191
  else if (n =? 244)%nat then Four 128 143
  else if ((241 <=? n) && (n <=? 243))%nat then Four 128 191
  else Stray.

(** Well-formed UTF-8: the strings without an unpaired surrogate. *)
Fixpoint well_formed (s : string) : bool :=
  match s with
  | EmptyString => true
  | String a r =>
      match classify a with
      | Single => well_formed r
      | Two =>
          match r with
          | String b r1 => continuation b && well_formed r1
          | _ => false
          end
      | Three lo hi =>
          match r with
          | String b (String c r2) =>
              byte_in lo hi b && continuation c && well_formed r2
          | _ => false
          end
      | Four lo hi =>
          match r with
          | String b (String c (String d r3)) =>
              byte_in lo hi b && continuation c && continuation d && well_formed r3
          | _ => false
          end
      | Stray => false
      end
  end.

(** The UTF-8 bytes of a JavaScript string, as the platform encodes it: the
    bytes it is kept as, with every unpaired surrogate replaced by U+FFFD. *)
Fixpoint utf8_encode (s : string) : string :=
  match s with
  | EmptyString => ""
  | String a r =>
      if (nat_of_ascii a =? 237)%nat then
        match r with
        | String b (String c r2) =>
            if byte_in 160 191 b && continuation c
            then replacement ++ utf8_encode r2
            else String a (utf8_encode r)
        | _ => String a (utf8_encode r)
        end
      else String a (utf8_encode r)
  end.

(** The string that bytes decode to, as the platform's UTF-8 decoder does it
    (errors replaced): a byte that cannot start a sequence, and a sequence
    cut short by the end or by a byte out of its bounds, give one U+FFFD;
    the byte that cut a sequence short is then read as the start of the next
    one. *)
Fixpoint utf8_decode (s : string) : string :=
  match s with
  | EmptyString => ""
  | String a r =>
      match classify a with
      | Single => String a (utf8_decode r)
      | Stray => replacement ++ utf8_decode r
      | Two =>
          match r with
          | EmptyString => replacement
          | String b r1 =>
              if continuation b then String a (String b (utf8_decode r1))
              else replacement ++ utf8_decode r
          end
      | Three lo hi =>
          match r with
          | EmptyString => replacement
          | String b r1 =>
              if byte_in lo hi b then
                match r1 with
                | EmptyString => replacement
                | String c r2 =>
                    if continuation c
                    then String a (String b (String c (utf8_decode r2)))
                    else replacement ++ utf8_decode r1
                end
              else replacement ++ utf8_decode r
          end
      | Four lo hi =>
          match r with
          | EmptyString => replacement
          | String b r1 =>
              if byte_in lo hi b then
                match r1 with
                | EmptyString => replacement
                | String c r2 =>
                    if continuation c then
                      match r2 with
                      | EmptyString => replacement
                      | String d r3 =>
                          if continuation d
                          then String a (String b (String c (String d (utf8_decode r3))))
                          else replacement ++ utf8_decode r2
                      end
                    else replacement ++ utf8_decode r1
                end
              else replacement ++ utf8_decode r
          end
      end
  end.

(** The string a URL gives back for a string written into it. *)
Definition as_scalar (s : string) : string := utf8_decode (utf8_encode s).


(** A [URLSearchParams] object: its list of name-value pairs. The names and
    values are kept as they were passed in; their conversion to scalar
    values, which the platform does on the way in, is done by
    [params_toString], the one reader of the list here. *)
Definition URLSearchParams : Type := list (string * string).

(** [params.set(name, value)]: the first pair named [name] takes the value,
    later ones are removed; without one the pair is appended. *)
Fixpoint params_set (name value : string) (ps : URLSearchParams) : URLSearchParams :=
  match ps with
  | [] => [(name, value)]
  | (k, v) :: rest =>
      if String.eqb k name
      then (k, value) :: filter (fun p => negb (String.eqb (fst p) name)) rest
      else (k, v) :: params_set name value rest
  end.

(** [params.toString()] *)
Fixpoint params_toString (ps : URLSearchParams) : string :=
  match ps with
  | [] => ""
  | (k, v) :: rest =>
      let here := form_encode (utf8_encode k) ++ "=" ++ form_encode (utf8_encode v) in
      match rest with
      | [] => here
      | _ :: _ => here ++ "&" ++ params_toString rest
      end
  end.

(** The pieces of [s] between occurrences of [sep]. *)
Fixpoint split_on (sep : ascii) (s : string) : list string :=
  match s with
  | EmptyString => [""]
  | String c r =>
      if Ascii.eqb c sep then "" :: split_on sep r
      else match split_on sep r with
           | h :: t => String c h :: t
           | [] => [String c ""]
           end
  end.

(** [s] cut at the first [sep]: what is before it and what is after it. *)
Fixpoint cut (sep : ascii) (s : string) : string * string :=
  match s with
  | EmptyString => ("", "")
  | String c r =>
      if Ascii.eqb c sep then ("", r)
      else let (a, b) := cut sep r in (String c a, b)
  end.

Definition parse_pair (piece : string) : string * string :=
  let (n, v) := cut "=" piece in
  (utf8_decode (form_decode n), utf8_decode (form_decode v)).

(** The parser: empty pieces are skipped; names and values are
    percent-decoded to bytes and the bytes decoded as UTF-8. *)
Definition parse_urlencoded (s : string) : URLSearchParams :=
  map parse_pair (filter (fun p => negb (String.eqb p "")) (split_on "&" s)).

(** The query of a URL: after the first [?], before the fragment. *)
Definition search_of_url (url : string) : string :=
  snd (cut "?" (fst (cut "#" url))).

Fixpoint contains (c : ascii) (s : string) : bool :=
  match s with
  | EmptyString => false
  | String c' r => Ascii.eqb c' c || contains c r
  end.

(** The characters that structure a URL and its query. *)
Definition delimiter (c : ascii) : Prop :=
  c = "&"%char \/ c = "="%char \/ c = "#"%char \/ c = "?"%char.

(** One serialised pair, [name=value]. *)
Definition pair_text (k v : string) : string := form_encode k ++ "=" ++ form_encode v.

End Url.
Import Url.

(** ** The filter state synchroniser (README, "URL-Based State")

    [useEffect(() => { const debounce = setTimeout(commit, 500);
                       return () => clearTimeout(debounce); }, [query, status])] *)

Module FilterSync.

(** The browser history as the router sees it: [router.replace] overwrites
    the current entry, a push would move it onto [back_stack]. *)
Record history : Type := {
  current : string;
  back_stack : list string
}.

(** A pending [setTimeout]: the milliseconds left and the [query] and
    [status] its callback closed over. *)
Record timer : Type := {
  remaining : nat;
  cb_query : string;
  cb_status : string
}.

Record sync_state : Type := {
  query : string;
  status : string;
  debounce : option timer;
  nav : history;
  replace_calls : list string   (* arguments of [router.replace], oldest first *)
}.

Definition delay : nat := 500.

(** The parameter set the timer callback builds. *)
Definition commit_params (query status : string) : URLSearchParams :=
  let params : URLSearchParams := [] in
  let params := if (0 <? String.length query)%nat then params_set "query" query params else params in
  let params := if (0 <? String.length status)%nat then params_set "status" status params else params in
  params.

Definition commit_url (query status : string) : string :=
  "/?" ++ params_toString (commit_params query status).

Definition router_replace (url : string) (s : sync_state) : sync_state :=
  {| query := query s; status := status s; debounce := debounce s;
     nav := {| current := url; back_stack := back_stack (nav s) |};
     replace_calls := (replace_calls s ++ [url])%list |}.

(** The effect body: the cleanup of the previous run clears its timer, then
    a new timer is set that closes over the rendered [query] and [status]. *)
Definition run_effect (s : sync_state) : sync_state :=
  {| query := query s; status := status s;
     debounce := Some {| remaining := delay; cb_query := query s; cb_status := status s |};
     nav := nav s; replace_calls := replace_calls s |}.

(** Mount: [useState("")] twice, then the first run of the effect. *)
Definition mount (h : history) : sync_state :=
  run_effect {| query := ""; status := ""; debounce := None;
                nav := h; replace_calls := [] |}.

(** [setQuery(v)]: a state that does not change leaves the dependency
    array as it was, and the effect does not run again. *)
Definition setQuery (v : string) (s : sync_state) : sync_state :=
  if String.eqb v (query s) then s
  else run_effect {| query := v; status := status s; debounce := debounce s;
                     nav := nav s; replace_calls := replace_calls s |}.

Definition setStatus (v : string) (s : sync_state) : sync_state :=
  if String.eqb v (status s) then s
  else run_effect {| query := query s; status := v; debounce := debounce s;
                     nav := nav s; replace_calls := replace_calls s |}.

(** Unmount runs the cleanup: [clearTimeout(debounce)]. *)
Definition unmount (s : sync_state) : sync_state :=
  {| query := query s; status := status s; debounce := None;
     nav := nav s; replace_calls := replace_calls s |}.

(** [d] milliseconds pass: a timer that is due fires once. *)
Definition advance (d : nat) (s : sync_state) : sync_state :=
  match debounce s with
  | None => s
  | Some t =>
      if (d <? remaining t)%nat then
        {| query := query s; status := status s;
           debounce := Some {| remaining := remaining t - d;
                               cb_query := cb_query t; cb_status := cb_status t |};
           nav := nav s; replace_calls := replace_calls s |}
      else
        router_replace (commit_url (cb_query t) (cb_status t))
          {| query := query s; status := status s; debounce := None;
             nav := nav s; replace_calls := replace_calls s |}
  end.

Inductive edit : Type :=
| EditQuery (v : string)
| EditStatus (v : string).

Definition apply_edit (e : edit) (s : sync_state) : sync_state :=
  match e with
  | EditQuery v => setQuery v s
  | EditStatus v => setStatus v s
  end.

(** Whether the edit changes the field it writes. *)
Definition changes (e : edit) (s : sync_state) : bool :=
  match e with
  | EditQuery v => negb (String.eqb v (query s))
  | EditStatus v => negb (String.eqb v (status s))
  end.

(** A run of edits, each arriving [fst] milliseconds after the one before. *)
Fixpoint run_edits (es : list (nat * edit)) (s : sync_state) : sync_state :=
  match es with
  | [] => s
  | (d, e) :: rest => run_edits rest (apply_edit e (advance d s))
  end.

(** A burst: a first edit, edits that follow it, then [quiet] milliseconds
    without one. *)
Record burst : Type := {
  lead : nat;                      (* idle time before the first edit *)
  first : edit;
  more : list (nat * edit);
  quiet : nat
}.

Definition typed (b : burst) (s : sync_state) : sync_state :=
  run_edits (more b) (apply_edit (first b) (advance (lead b) s)).

Definition run_burst (b : burst) (s : sync_state) : sync_state :=
  advance (quiet b) (typed b s).

Fixpoint run_bursts (bs : list burst) (s : sync_state) : sync_state :=
  match bs with
  | [] => s
  | b :: rest => run_bursts rest (run_burst b s)
  end.

(** The URL each burst leaves the fields at, burst by burst. *)
Fixpoint final_urls (bs : list burst) (s : sync_state) : list string :=
  match bs with
  | [] => []
  | b :: rest =>
      commit_url (query (typed b s)) (status (typed b s))
      :: final_urls rest (run_burst b s)
  end.

(** Every edit changes its field and comes less than 500ms after the one
    before. *)
Fixpoint rapid (es : list (nat * edit)) (s : sync_state) : Prop :=
  match es with
  | [] => True
  | (d, e) :: rest =>
      d < delay /\ changes e (advance d s) = true
      /\ rapid rest (apply_edit e (advance d s))
  end.

Fixpoint well_spaced (bs : list burst) (s : sync_state) : Prop :=
  match bs with
  | [] => True
  | b :: rest =>
      changes (first b) (advance (lead b) s) = true
      /\ rapid (more b) (apply_edit (first b) (advance (lead b) s))
      /\ delay <= quiet b
      /\ well_spaced rest (run_burst b s)
  end.

(** The timer has just been set, over the fields as they are now. *)
Definition armed (s : sync_state) : Prop :=
  debounce s
  = Some {| remaining := delay; cb_query := query s; cb_status := status s |}.

(** A browser tab that opened the page from another one, 500ms after the
    component mounted: the timer of the mount has fired. *)
Definition settled_tab : sync_state :=
  advance 500 (mount {| current := "/"; back_stack := ["/welcome"] |}).

(** Typing "milk" letter by letter, then choosing "Pending" a while later. *)
Definition milk_then_pending : list burst :=
  [ {| lead := 1000; first := EditQuery "m";
       more := [(100, EditQuery "mi"); (120, EditQuery "mil"); (90, EditQuery "milk")];
       quiet := 500 |};
    {| lead := 2000; first := EditStatus "pending"; more := []; quiet := 700 |} ].

End FilterSync.
Import FilterSync.

(** ** [app/page.tsx] *)

Module Page.

(** The resolved [searchParams]: a parameter the URL does not carry is
    [undefined] ([None]). *)
Record SearchParams : Type := {
  sp_query : option string;
  sp_status : option string
}.

(** What the router hands to [Home] for a URL. *)
Definition searchParams_of_url (url : string) : SearchParams :=
  let ps := parse_urlencoded (search_of_url url) in
  {| sp_query := assoc "query" ps; sp_status := assoc "status" ps |}.

(** What [Home] returns: the red error panel, or [<TodoList todos={...} />]. *)
Inductive element : Type :=
| ErrorPanel (heading text : string)
| TodoListElement (todos : option json).

Definition Home (searchParams : SearchParams) : M element :=
  let query := sp_query searchParams in
  let status := sp_status searchParams in
  base <- getenv_BASE_URL ;;
  response <- fetch {| req_method := "GET";
                       req_url := base ++ "/items?query=" ++ nullish_str query ""
                                  ++ "&status=" ++ nullish_str status "";
                       req_headers := [];
                       req_body := None |} ;;
  if negb (ok response) then
    ret (ErrorPanel "Something went wrong"
           "Unable to fetch todos. Please try again or check the console for more details.")
  else
    result <- response_json response ;;
    todos <- get_prop result "data" ;;
    ret (TodoListElement todos).

End Page.
Import Page.

(** ** [app/_components/todo-list.tsx] *)

Module TodoListComponent.

(** The two [useState] cells of the component. *)
Record component_state : Type := {
  todo : PartialTodo;
  loading : bool
}.

(** [{ task: ``, status: `pending` }] around the given text. *)
Definition staged (text : string) : PartialTodo :=
  {| p_id := None; p_task := Some text; p_status := Some pending;
     p_createdAt := None; p_updatedAt := None |}.

Definition initial_state : component_state :=
  {| todo := staged ""; loading := false |}.

Definition setLoading (b : bool) (st : component_state) : component_state :=
  {| todo := todo st; loading := b |}.

Definition setTodo (t : PartialTodo) (st : component_state) : component_state :=
  {| todo := t; loading := loading st |}.

Definition addTodo (st : component_state) : M component_state :=
  let st := setLoading true st in
  result <- createTodo (todo st) ;;
  if negb (success result) then
    toast_error "Todo not added!" ;;;
    ret st
  else
    toast_success "Todo added!" ;;;
    let st := setLoading false st in
    ret (setTodo (staged "") st).

(** The event handlers the rendered controls carry. *)
Inductive handler : Type :=
| OnChange (value : string)                      (* the text input *)
| OnAddTodo                                      (* the Add button *)
| OnUpdateTodoStatus (id : string) (st : Status) (* a row's status button *)
| OnRemoveTodo (id : string).                    (* a row's delete button *)

Definition run_handler (h : handler) (st : component_state) : M component_state :=
  match h with
  | OnChange value => ret (setTodo (staged value) st)
  | OnAddTodo => addTodo st
  | OnUpdateTodoStatus id s =>
      updateTodoStatus id (status_string s) ;;; ret st
  | OnRemoveTodo id =>
      removeTodo id ;;; ret st
  end.

Inductive icon : Type :=
| Loader2 | Plus | CircleCheck | CircleXIcon | Trash | FolderClosed.

(** One row of the list: the [<div key={t.id}>] with the task text and the
    two buttons. *)
Record row : Type := {
  row_key : string;
  row_text : string;
  toggle_className : string;
  toggle_title : string;
  toggle_icon : icon;
  toggle_onClick : handler;
  delete_icon : icon;
  delete_onClick : handler
}.

Inductive list_area : Type :=
| Empty (media : icon) (title description : string)
| Rows (rows : list row).

Record view : Type := {
  input_value : option string;
  input_onChange : string -> handler;
  add_icon : icon;
  add_onClick : handler;
  items : list_area
}.

Definition render_row (t : Todo) : row :=
  let is_completed := String.eqb (status_string (todo_status t)) "completed" in
  {| row_key := todo_id t;
     row_text := todo_task t;
     toggle_className :=
       if is_completed then "bg-green-50 hover:bg-green-200 text-green-700"
       else "bg-amber-50 hover:bg-amber-200 text-amber-700";
     toggle_title := if is_completed then "Mark as pending" else "Mark as completed";
     toggle_icon := if is_completed then CircleCheck else CircleXIcon;
     toggle_onClick := OnUpdateTodoStatus (todo_id t) (todo_status t);
     delete_icon := Trash;
     delete_onClick := OnRemoveTodo (todo_id t) |}.

Definition TodoList (todos : list Todo) (st : component_state) : view :=
  {| input_value := p_task (todo st);
     input_onChange := OnChange;
     add_icon := if loading st then Loader2 else Plus;
     add_onClick := OnAddTodo;
     items :=
       if (length todos =? 0)%nat then
         Empty FolderClosed "Nothing Yet"
           "You haven't created any to-dos yet. Get started by creating your first to-do."
       else Rows (map render_row todos) |}.

End TodoListComponent.
Import TodoListComponent.

(** ** Names for what the further properties speak about *)

(** A call of one of the three actions. *)
Inductive write_call : Type :=
| CallCreate (todo : PartialTodo)
| CallRemove (id : string)
| CallUpdate (id status : string).

(** The request the called action sends. *)
Definition request_of (base : string) (c : write_call) : request :=
  match c with
  | CallCreate todo => post_items base todo
  | CallRemove id => delete_item base id
  | CallUpdate id status => put_item base id status
  end.

Definition run_write (c : write_call) : M action_result :=
  match c with
  | CallCreate todo => createTodo todo
  | CallRemove id => removeTodo id
  | CallUpdate id status => updateTodoStatus id status
  end.

(** [error instanceof Error ? error.message : "Internal server error"] *)
Definition message_of (e : thrown) : string :=
  match e with
  | ErrorObj message => message
  | NonError => "Internal server error"
  end.

(** The read [Home] sends for the given search parameters. *)
Definition items_request (base : string) (sp : SearchParams) : request :=
  {| req_method := "GET";
     req_url := base ++ "/items?query=" ++ nullish_str (sp_query sp) ""
                ++ "&status=" ++ nullish_str (sp_status sp) "";
     req_headers := [];
     req_body := None |}.

(** The text of the red panel. *)
Definition error_panel : element :=
  ErrorPanel "Something went wrong"
    "Unable to fetch todos. Please try again or check the console for more details.".

(** Strings that the query serialiser would leave as they are. *)
Fixpoint all_unreserved (s : string) : bool :=
  match s with
  | EmptyString => true
  | String c r => is_unreserved c && all_unreserved r
  end.

(** What happens to a mounted synchroniser: time passes, or a field is
    written. *)
Inductive event : Type :=
| Wait (d : nat)
| Edit (e : edit).

Definition step (ev : event) (s : sync_state) : sync_state :=
  match ev with
  | Wait d => advance d s
  | Edit e => apply_edit e s
  end.

Fixpoint run_events (evs : list event) (s : sync_state) : sync_state :=
  match evs with
  | [] => s
  | ev :: rest => run_events rest (step ev s)
  end.

Fixpoint count_edits (evs : list event) : nat :=
  match evs with
  | [] => 0
  | Edit _ :: rest => S (count_edits rest)
  | Wait _ :: rest => count_edits rest
  end.

(** A pending timer closes over the fields as they are now and is due in at
    most 500ms. *)
Definition timer_fresh (s : sync_state) : Prop :=
  match debounce s with
  | None => True
  | Some t =>
      cb_query t = query s /\ cb_status t = status s
      /\ 0 < remaining t /\ remaining t <= delay
  end.

(** With no timer pending, the current history entry is the URL of the
    fields. *)
Definition url_in_sync (s : sync_state) : Prop :=
  match debounce s with
  | None => current (nav s) = commit_url (query s) (status s)
  | Some _ => True
  end.

(** A tab on a filtered URL, and a session in it. *)
Definition filtered_tab : history :=
  {| current := "/?query=buy&status=pending"; back_stack := ["/welcome"] |}.

Definition a_session : list event :=
  [Wait 200; Edit (EditQuery "m"); Wait 100; Edit (EditQuery "m");
   Wait 450; Edit (EditStatus "completed"); Wait 499; Edit (EditQuery "")].

(** * Properties *)

(** ** The write actions *)

Ltac run_M :=
  unfold run_handler, addTodo, Home;
  unfold createTodo, removeTodo, updateTodoStatus,
         try_catch, bind, fetch, getenv_BASE_URL, response_json, console_log,
         revalidatePath, toast_success, toast_error, emit, when, ret, throw,
         effects_of, completion_of, succeeded, failed;
  cbn.

Ltac split_reply w :=
  match goal with
  | |- context [network w ?r] =>
      let okb := fresh "okb" in
      let v := fresh "v" in
      let e := fresh "e" in
      destruct (network w r) as [e | [okb [v | e]]]; cbn;
      [ | destruct okb; cbn | destruct okb; cbn ]
  end.

Ltac split_json :=
  match goal with
  | |- context [get_prop ?j _] => destruct j; cbn
  | |- context [match ?j with JNull => _ | _ => _ end] => destruct j; cbn
  end.

Ltac close_result :=
  eexists; split; [reflexivity | first [left; reflexivity | right; eexists; reflexivity]].

Lemma createTodo_returns (todo : PartialTodo) (w : env) :
  exists r, completion_of (createTodo todo w) = Returns r
            /\ (r = succeeded \/ exists m, r = failed m).
Proof.
  run_M. split_reply w; try close_result.
  split_json; close_result.
Qed.

Lemma removeTodo_returns (id : string) (w : env) :
  exists r, completion_of (removeTodo id w) = Returns r
            /\ (r = succeeded \/ exists m, r = failed m).
Proof.
  run_M. split_reply w; try close_result.
  split_json; close_result.
Qed.

Lemma updateTodoStatus_returns (id status : string) (w : env) :
  exists r, completion_of (updateTodoStatus id status w) = Returns r
            /\ (r = succeeded \/ exists m, r = failed m).
Proof.
  run_M. split_reply w; try close_result.
  split_json; close_result.
Qed.

(** An action reaches [revalidatePath] exactly after an accepted reply, and
    then it returns [{ success: true }]. *)
Lemma createTodo_accepted (todo : PartialTodo) (w : env) :
  let reply := network w (post_items (BASE_URL w) todo) in
  revalidations (effects_of (createTodo todo w))
  = (if accepted reply then [ERevalidatePath "/"] else [])
  /\ (completion_of (createTodo todo w) = Returns succeeded <-> accepted reply = true).
Proof.
  run_M. split_reply w; try (split; [reflexivity | split; congruence]).
  split_json; (split; [reflexivity | split; congruence]).
Qed.

Lemma removeTodo_accepted (id : string) (w : env) :
  let reply := network w (delete_item (BASE_URL w) id) in
  revalidations (effects_of (removeTodo id w))
  = (if accepted reply then [ERevalidatePath "/"] else [])
  /\ (completion_of (removeTodo id w) = Returns succeeded <-> accepted reply = true).
Proof.
  run_M. split_reply w; try (split; [reflexivity | split; congruence]).
  split_json; (split; [reflexivity | split; congruence]).
Qed.

Lemma updateTodoStatus_accepted (id status : string) (w : env) :
  let reply := network w (put_item (BASE_URL w) id status) in
  revalidations (effects_of (updateTodoStatus id status w))
  = (if accepted reply then [ERevalidatePath "/"] else [])
  /\ (completion_of (updateTodoStatus id status w) = Returns succeeded
      <-> accepted reply = true).
Proof.
  run_M. split_reply w; try (split; [reflexivity | split; congruence]).
  split_json; (split; [reflexivity | split; congruence]).
Qed.

(** A non-success reply whose body is an object with a string [error] field:
    the result carries that string. *)
Lemma createTodo_error_field (todo : PartialTodo) (w : env) fields (m : string) :
  network w (post_items (BASE_URL w) todo)
  = FetchResponse {| ok := false; body_json := Returns (JObj fields) |} ->
  assoc "error" fields = Some (JStr m) ->
  createTodo todo w
  = ([EFetch (post_items (BASE_URL w) todo); EConsoleLog (JObj fields)],
     Returns (failed m)).
Proof.
  intros Hnet Herr. run_M. rewrite Hnet. cbn. rewrite Herr. reflexivity.
Qed.

(** A non-success reply whose body is an object without an [error] field, or
    with [error: null]: the result carries the fallback text. *)
Lemma createTodo_fallback_message (todo : PartialTodo) (w : env) fields :
  network w (post_items (BASE_URL w) todo)
  = FetchResponse {| ok := false; body_json := Returns (JObj fields) |} ->
  assoc "error" fields = None \/ assoc "error" fields = Some JNull ->
  completion_of (createTodo todo w) = Returns (failed "Unable to create todo").
Proof.
  intros Hnet Herr. run_M. rewrite Hnet. cbn.
  destruct Herr as [-> | ->]; reflexivity.
Qed.

(** A success reply whose body parses: [{ success: true }]. *)
Lemma createTodo_success (todo : PartialTodo) (w : env) (v : json) :
  network w (post_items (BASE_URL w) todo)
  = FetchResponse {| ok := true; body_json := Returns v |} ->
  createTodo todo w
  = ([EFetch (post_items (BASE_URL w) todo); EConsoleLog v; ERevalidatePath "/"],
     Returns succeeded).
Proof.
  intros Hnet. run_M. rewrite Hnet. reflexivity.
Qed.

(** C4 (code evaluated where the claim fails): the API answers the POST
    with an HTTP success and an empty body; [createTodo] parses the body
    before it looks at [response.ok], the parse rejects, and the action
    returns [{ success: false, error: "Unexpected end of JSON input" }]
    without reaching [revalidatePath]. *)
Theorem createTodo_success_reply_reported_failed :
  createTodo (staged "buy milk") (env_reply success_empty_body)
  = ([EFetch (post_items "http://localhost:8000" (staged "buy milk"))],
     Returns (failed "Unexpected end of JSON input")).
Proof. reflexivity. Qed.

(** C5: whatever the transport or the API does, each of [createTodo],
    [removeTodo] and [updateTodoStatus] completes normally, with
    [{ success: true }] or [{ success: false, error }]. *)
Theorem write_actions_never_throw (w : env) (todo : PartialTodo) (id status : string) :
  (exists r, completion_of (createTodo todo w) = Returns r
             /\ (r = succeeded \/ exists m, r = failed m))
  /\ (exists r, completion_of (removeTodo id w) = Returns r
                /\ (r = succeeded \/ exists m, r = failed m))
  /\ (exists r, completion_of (updateTodoStatus id status w) = Returns r
                /\ (r = succeeded \/ exists m, r = failed m)).
Proof.
  split; [apply createTodo_returns | split].
  - apply removeTodo_returns.
  - apply updateTodoStatus_returns.
Qed.

(** A result with [success: false] comes with no invalidation. *)
Lemma failed_result_no_revalidation (w : env) (todo : PartialTodo) (id status : string) :
  (forall m, completion_of (createTodo todo w) = Returns (failed m) ->
             revalidations (effects_of (createTodo todo w)) = [])
  /\ (forall m, completion_of (removeTodo id w) = Returns (failed m) ->
                revalidations (effects_of (removeTodo id w)) = [])
  /\ (forall m, completion_of (updateTodoStatus id status w) = Returns (failed m) ->
                revalidations (effects_of (updateTodoStatus id status w)) = []).
Proof.
  repeat split; intros m;
    run_M; split_reply w; try reflexivity; try discriminate;
    split_json; try reflexivity; discriminate.
Qed.

(** C6 (code evaluated where the claim fails): the API answers the DELETE
    of item 42 with an HTTP success and an empty body; [removeTodo] issues no
    [revalidatePath] and returns [{ success: false, ... }], although the
    request succeeded. *)
Theorem removeTodo_success_reply_not_revalidated :
  revalidations (effects_of (removeTodo "42" (env_reply success_empty_body))) = []
  /\ completion_of (removeTodo "42" (env_reply success_empty_body))
     = Returns (failed "Unexpected end of JSON input").
Proof. split; reflexivity. Qed.

(** C7: for either status, [updateTodoStatus] sends [PUT /items/:id] with the
    opposite status in the body, and the status it writes for the status it
    wrote is the original one. *)
Theorem toggle_writes_opposite_and_is_involutive (s : Status) (id : string) (w : env) :
  fetches (effects_of (updateTodoStatus id (status_string s) w))
  = [EFetch {| req_method := "PUT";
               req_url := BASE_URL w ++ "/items/" ++ id;
               req_headers := json_headers;
               req_body := Some (JObj [("status", JStr (status_string (opposite s)))]) |}]
  /\ toggled (status_string s) = status_string (opposite s)
  /\ opposite s <> s
  /\ toggled (toggled (status_string s)) = status_string s.
Proof.
  split.
  - destruct s; run_M; split_reply w; try reflexivity; split_json; reflexivity.
  - destruct s; repeat split; cbn; congruence.
Qed.

(** ** The page: [Home] *)

(** The read [Home] issues for the given search parameters. *)
Lemma Home_request (sp : SearchParams) (w : env) :
  fetches (effects_of (Home sp w))
  = [EFetch {| req_method := "GET";
               req_url := BASE_URL w ++ "/items?query=" ++ nullish_str (sp_query sp) ""
                          ++ "&status=" ++ nullish_str (sp_status sp) "";
               req_headers := [];
               req_body := None |}].
Proof.
  run_M. split_reply w; try reflexivity. split_json; reflexivity.
Qed.

(** One read per render: [Home] never fetches a second time. *)
Lemma Home_no_retry (sp : SearchParams) (w : env) :
  length (fetches (effects_of (Home sp w))) = 1.
Proof. rewrite Home_request. reflexivity. Qed.

(** A response that is not [ok] gives the error panel, whatever its body. *)
Lemma Home_not_ok_error_panel (sp : SearchParams) (w : env) (r : response) :
  (forall req, network w req = FetchResponse r) ->
  ok r = false ->
  completion_of (Home sp w)
  = Returns (ErrorPanel "Something went wrong"
               "Unable to fetch todos. Please try again or check the console for more details.").
Proof.
  intros Hnet Hok. run_M. rewrite Hnet. cbn. rewrite Hok. reflexivity.
Qed.

(** A rejected [fetch] is not caught: [Home] itself rejects. *)
Lemma Home_rejected_fetch_throws (sp : SearchParams) (w : env) (e : thrown) :
  (forall req, network w req = FetchRejected e) ->
  completion_of (Home sp w) = Throws e.
Proof.
  intros Hnet. run_M. rewrite Hnet. reflexivity.
Qed.

(** C3 (code evaluated where the claim fails): the API cannot be reached, so
    [fetch] rejects; [Home] awaits it outside any [try], returns no error
    panel and completes abruptly with the transport error. *)
Theorem Home_transport_failure_no_error_panel :
  Home {| sp_query := None; sp_status := None |} (env_reply unreachable)
  = ([EFetch {| req_method := "GET";
                req_url := "http://localhost:8000/items?query=&status=";
                req_headers := [];
                req_body := None |}],
     Throws (ErrorObj "fetch failed")).
Proof. reflexivity. Qed.

(** ** The component: [TodoList] and [addTodo] *)

(** The status and delete buttons call their action and drop its result:
    no toast follows, whatever the outcome. *)
Lemma row_controls_no_toast (id : string) (s : Status) (st : component_state) (w : env) :
  toasts (effects_of (run_handler (OnUpdateTodoStatus id s) st w)) = []
  /\ toasts (effects_of (run_handler (OnRemoveTodo id) st w)) = [].
Proof.
  split; run_M; split_reply w; try reflexivity;
    split_json; reflexivity.
Qed.

(** C8 (counterexample): the API refuses the create with the error
    "task required"; [createTodo] returns that message, and the one toast
    [addTodo] shows reads "Todo not added!". *)
Lemma create_failure_toast_is_not_the_api_message :
  completion_of (createTodo (todo initial_state) (env_reply task_required))
  = Returns (failed "task required")
  /\ toasts (effects_of (addTodo initial_state (env_reply task_required)))
     = [ToastError "Todo not added!"]
  /\ toasts (effects_of (addTodo initial_state (env_reply task_required)))
     <> [ToastError "task required"].
Proof.
  split; [reflexivity | split; [reflexivity | ]].
  cbn. discriminate.
Qed.

(** C8 (amended): every run of [addTodo] shows exactly one toast: the success
    toast "Todo added!" when [createTodo] returned [success: true], the
    error toast with the fixed text "Todo not added!" otherwise. *)
Theorem addTodo_shows_one_fixed_toast (st : component_state) (w : env) :
  exists r,
    completion_of (createTodo (todo st) w) = Returns r
    /\ toasts (effects_of (addTodo st w))
       = [if success r then ToastSuccess "Todo added!"
          else ToastError "Todo not added!"].
Proof.
  run_M. split_reply w; try (eexists; split; reflexivity).
  split_json; eexists; split; reflexivity.
Qed.

(** C9: with no items the list area is the empty-state placeholder; with
    items it is one row per item, in order, each showing its item's task
    (and keyed by its item's id). *)
Theorem TodoList_empty_state_or_one_row_per_item (st : component_state) :
  items (TodoList [] st)
  = Empty FolderClosed "Nothing Yet"
      "You haven't created any to-dos yet. Get started by creating your first to-do."
  /\ items (TodoList [] st) <> Rows []
  /\ forall (t : Todo) (ts : list Todo),
       exists rows,
         items (TodoList (t :: ts) st) = Rows rows
         /\ length rows = length (t :: ts)
         /\ map row_text rows = map todo_task (t :: ts)
         /\ map row_key rows = map todo_id (t :: ts).
Proof.
  split; [reflexivity | ].
  split; [discriminate | ].
  intros t ts. exists (map render_row (t :: ts)).
  split; [reflexivity | ].
  split; [apply length_map | ].
  split; rewrite map_map; reflexivity.
Qed.

(** C10: [addTodo] first sets [loading]; when [createTodo] returns
    [success: false] it returns at once, so [loading] stays true (the Add
    button renders the spinner) and the staged todo is kept; when it returns
    [success: true], [loading] is reset and the staged todo becomes the empty
    pending task, [{ task: "", status: "pending" }] and no other field. *)
Theorem addTodo_failure_returns_early (st : component_state) (w : env) (todos : list Todo) :
  exists r st',
    completion_of (createTodo (todo st) w) = Returns r
    /\ completion_of (addTodo st w) = Returns st'
    /\ if success r
       then loading st' = false
            /\ todo st' = {| p_id := None; p_task := Some "";
                             p_status := Some pending;
                             p_createdAt := None; p_updatedAt := None |}
            /\ add_icon (TodoList todos st') = Plus
       else loading st' = true
            /\ todo st' = todo st
            /\ add_icon (TodoList todos st') = Loader2.
Proof.
  run_M. split_reply w;
    try (do 2 eexists; split; [reflexivity | split; [reflexivity | cbn; auto]]).
  split_json; do 2 eexists; (split; [reflexivity | split; [reflexivity | cbn; auto]]).
Qed.

(** ** URL query strings: serialising and parsing *)

Lemma append_assoc (a b c : string) : (a ++ b) ++ c = a ++ (b ++ c).
Proof. induction a as [| x a IH]; cbn; [reflexivity | now rewrite IH]. Qed.

Lemma plus_to_space_app (a b : string) :
  plus_to_space (a ++ b) = plus_to_space a ++ plus_to_space b.
Proof. induction a as [| x a IH]; cbn; [reflexivity | now rewrite IH]. Qed.

Lemma contains_app (c : ascii) (a b : string) :
  contains c (a ++ b) = contains c a || contains c b.
Proof.
  induction a as [| x a IH]; cbn; [reflexivity | ].
  rewrite IH. apply orb_assoc.
Qed.

(** Decoding undoes the encoding of one byte, whatever follows it. *)
Lemma decode_encode_byte (c : ascii) (r : string) :
  percent_decode (plus_to_space (encode_byte c) ++ r) = String c (percent_decode r).
Proof. destruct c as [[] [] [] [] [] [] [] []]; reflexivity. Qed.

Lemma form_decode_encode (s : string) : form_decode (form_encode s) = s.
Proof.
  unfold form_decode. induction s as [| c s IH]; [reflexivity | ].
  cbn [form_encode]. rewrite plus_to_space_app, decode_encode_byte, IH. reflexivity.
Qed.

Lemma encode_byte_no_delimiter (sep c : ascii) :
  delimiter sep -> contains sep (encode_byte c) = false.
Proof.
  intros [-> | [-> | [-> | ->]]];
    destruct c as [[] [] [] [] [] [] [] []]; reflexivity.
Qed.

Lemma form_encode_no_delimiter (sep : ascii) (s : string) :
  delimiter sep -> contains sep (form_encode s) = false.
Proof.
  intros Hsep. induction s as [| c s IH]; [reflexivity | ].
  cbn [form_encode]. rewrite contains_app, IH, encode_byte_no_delimiter by assumption.
  reflexivity.
Qed.

(** *** UTF-8: well-formed strings pass unchanged *)

Ltac nat_bools :=
  repeat match goal with
  | H : (_ && _)%bool = true |- _ => apply andb_true_iff in H; destruct H
  | H : (_ <=? _)%nat = true |- _ => apply Nat.leb_le in H
  | H : (_ <=? _)%nat = false |- _ => apply Nat.leb_gt in H
  | H : (_ =? _)%nat = true |- _ => apply Nat.eqb_eq in H
  | H : (_ =? _)%nat = false |- _ => apply Nat.eqb_neq in H
  end.

Lemma byte_in_bounds (lo hi : nat) (c : ascii) :
  byte_in lo hi c = true -> lo <= nat_of_ascii c <= hi.
Proof. unfold byte_in. intros H. nat_bools. lia. Qed.

Lemma byte_in_outside (lo hi : nat) (c : ascii) :
  nat_of_ascii c < lo \/ hi < nat_of_ascii c -> byte_in lo hi c = false.
Proof.
  unfold byte_in. intros H.
  destruct (Nat.leb_spec lo (nat_of_ascii c)), (Nat.leb_spec (nat_of_ascii c) hi);
    cbn; try reflexivity; lia.
Qed.

(** The bounds that [classify] gives for the second byte lie among the
    continuation bytes, and a lead [ED] keeps it below [A0]. *)
Lemma classify_three_bounds (a : ascii) (lo hi : nat) :
  classify a = Three lo hi ->
  128 <= lo /\ hi <= 191 /\ (nat_of_ascii a = 237 -> hi = 159).
Proof.
  unfold classify.
  repeat match goal with
  | |- context [if ?c then _ else _] => destruct c eqn:?
  end; intros H; inversion H; subst; nat_bools; lia.
Qed.

Lemma classify_four_bounds (a : ascii) (lo hi : nat) :
  classify a = Four lo hi -> 128 <= lo /\ hi <= 191.
Proof.
  unfold classify.
  repeat match goal with
  | |- context [if ?c then _ else _] => destruct c eqn:?
  end; intros H; inversion H; subst; lia.
Qed.

Lemma classify_not_ED (a : ascii) :
  (forall lo hi, classify a <> Three lo hi) -> (nat_of_ascii a =? 237)%nat = false.
Proof.
  intros H. apply Nat.eqb_neq. intros Heq.
  apply (H 128 159). unfold classify. rewrite Heq. reflexivity.
Qed.

Lemma utf8_encode_pass (a : ascii) (r : string) :
  (nat_of_ascii a =? 237)%nat = false ->
  utf8_encode (String a r) = String a (utf8_encode r).
Proof. intros H. cbn [utf8_encode]. now rewrite H. Qed.

Lemma utf8_encode_continuation (b : ascii) (r : string) :
  128 <= nat_of_ascii b <= 191 ->
  utf8_encode (String b r) = String b (utf8_encode r).
Proof. intros H. apply utf8_encode_pass, Nat.eqb_neq. lia. Qed.

Lemma utf8_encode_lead (a b : ascii) (r : string) :
  (nat_of_ascii a = 237 -> nat_of_ascii b <= 159) ->
  utf8_encode (String a (String b r)) = String a (utf8_encode (String b r)).
Proof.
  intros H. destruct (nat_of_ascii a =? 237)%nat eqn:Ha.
  - apply Nat.eqb_eq in Ha. specialize (H Ha).
    change (utf8_encode (String a (String b r)))
      with (if (nat_of_ascii a =? 237)%nat then
              match r with
              | String c r2 =>
                  if byte_in 160 191 b && continuation c
                  then replacement ++ utf8_encode r2
                  else String a (utf8_encode (String b r))
              | _ => String a (utf8_encode (String b r))
              end
            else String a (utf8_encode (String b r))).
    rewrite byte_in_outside by lia. destruct r; destruct (_ =? _)%nat; reflexivity.
  - now apply utf8_encode_pass.
Qed.

(** Encoding leaves a well-formed string as it is. *)
Lemma utf8_encode_well_formed (s : string) :
  well_formed s = true -> utf8_encode s = s.
Proof.
  remember (String.length s) as n eqn:Hn. revert s Hn.
  induction n as [n IH] using lt_wf_ind. intros s Hn Hwf.
  destruct s as [| a r]; [reflexivity | ].
  cbn [well_formed] in Hwf. cbn [String.length] in Hn.
  destruct (classify a) as [| | lo hi | lo hi |] eqn:Hc.
  - rewrite utf8_encode_pass by (apply classify_not_ED; congruence).
    f_equal. apply (IH (String.length r)); [lia | reflexivity | exact Hwf].
  - destruct r as [| b r1]; [discriminate | ]. nat_bools.
    match goal with H : continuation b = true |- _ => apply byte_in_bounds in H end.
    rewrite utf8_encode_pass by (apply classify_not_ED; congruence).
    rewrite utf8_encode_continuation by assumption.
    do 2 f_equal. apply (IH (String.length r1)); [cbn in Hn; lia | reflexivity | assumption].
  - destruct r as [| b [| c r2]]; try discriminate. nat_bools.
    destruct (classify_three_bounds a lo hi Hc) as (Hlo & Hhi & Hed).
    repeat match goal with H : byte_in _ _ _ = true |- _ => apply byte_in_bounds in H
                         | H : continuation _ = true |- _ => apply byte_in_bounds in H end.
    rewrite utf8_encode_lead by (intros Ha; specialize (Hed Ha); lia).
    rewrite !utf8_encode_continuation by lia.
    do 3 f_equal. apply (IH (String.length r2)); [cbn in Hn; lia | reflexivity | assumption].
  - destruct r as [| b [| c [| d r3]]]; try discriminate. nat_bools.
    repeat match goal with H : continuation _ = true |- _ => apply byte_in_bounds in H end.
    rewrite utf8_encode_pass by (apply classify_not_ED; congruence).
    destruct (classify_four_bounds a lo hi Hc) as (Hlo & Hhi).
    match goal with H : byte_in _ _ b = true |- _ => apply byte_in_bounds in H end.
    rewrite !utf8_encode_continuation by lia.
    do 4 f_equal. apply (IH (String.length r3)); [cbn in Hn; lia | reflexivity | assumption].
  - discriminate.
Qed.

(** Decoding leaves a well-formed string as it is. *)
Lemma utf8_decode_well_formed (s : string) :
  well_formed s = true -> utf8_decode s = s.
Proof.
  remember (String.length s) as n eqn:Hn. revert s Hn.
  induction n as [n IH] using lt_wf_ind. intros s Hn Hwf.
  destruct s as [| a r]; [reflexivity | ].
  cbn [well_formed] in Hwf. cbn [utf8_decode]. cbn [String.length] in Hn.
  destruct (classify a) as [| | lo hi | lo hi |] eqn:Hc.
  - f_equal. apply (IH (String.length r)); [lia | reflexivity | exact Hwf].
  - destruct r as [| b r1]; [discriminate | ].
    apply andb_true_iff in Hwf as [Hb Hr].
    rewrite Hb. do 2 f_equal.
    apply (IH (String.length r1)); [cbn in Hn; lia | reflexivity | exact Hr].
  - destruct r as [| b [| c r2]]; try discriminate.
    apply andb_true_iff in Hwf as [Hbc Hr]. apply andb_true_iff in Hbc as [Hb Hcc].
    rewrite Hb, Hcc. do 3 f_equal.
    apply (IH (String.length r2)); [cbn in Hn; lia | reflexivity | exact Hr].
  - destruct r as [| b [| c [| d r3]]]; try discriminate.
    apply andb_true_iff in Hwf as [Hbcd Hr].
    apply andb_true_iff in Hbcd as [Hbc Hd]. apply andb_true_iff in Hbc as [Hb Hcc].
    rewrite Hb, Hcc, Hd. do 4 f_equal.
    apply (IH (String.length r3)); [cbn in Hn; lia | reflexivity | exact Hr].
  - discriminate.
Qed.

Lemma as_scalar_well_formed (s : string) :
  well_formed s = true -> as_scalar s = s.
Proof.
  intros H. unfold as_scalar.
  rewrite (utf8_encode_well_formed s H). apply utf8_decode_well_formed, H.
Qed.

Lemma split_on_absent (sep : ascii) (s : string) :
  contains sep s = false -> split_on sep s = [s].
Proof.
  induction s as [| c s IH]; cbn; [reflexivity | ].
  intros H. apply orb_false_iff in H as [Hc Hs].
  rewrite Hc, (IH Hs). reflexivity.
Qed.

Lemma split_on_app (sep : ascii) (a b : string) :
  contains sep a = false ->
  split_on sep (a ++ String sep b) = a :: split_on sep b.
Proof.
  induction a as [| c a IH]; cbn.
  - intros _. now rewrite Ascii.eqb_refl.
  - intros H. apply orb_false_iff in H as [Hc Ha].
    rewrite Hc, (IH Ha). reflexivity.
Qed.

Lemma cut_absent (sep : ascii) (s : string) :
  contains sep s = false -> cut sep s = (s, "").
Proof.
  induction s as [| c s IH]; cbn; [reflexivity | ].
  intros H. apply orb_false_iff in H as [Hc Hs].
  rewrite Hc, (IH Hs). reflexivity.
Qed.

Lemma cut_app (sep : ascii) (a b : string) :
  contains sep a = false -> cut sep (a ++ String sep b) = (a, b).
Proof.
  induction a as [| c a IH]; cbn.
  - intros _. now rewrite Ascii.eqb_refl.
  - intros H. apply orb_false_iff in H as [Hc Ha].
    rewrite Hc, (IH Ha). reflexivity.
Qed.

Lemma pair_text_no_amp_hash (sep : ascii) (k v : string) :
  sep = "&"%char \/ sep = "#"%char \/ sep = "?"%char ->
  contains sep (pair_text k v) = false.
Proof.
  intros Hsep. unfold pair_text.
  rewrite contains_app. cbn [append contains].
  rewrite !form_encode_no_delimiter by (unfold delimiter; tauto).
  destruct Hsep as [-> | [-> | ->]]; reflexivity.
Qed.

Lemma pair_text_not_empty (k v : string) : String.eqb (pair_text k v) "" = false.
Proof. unfold pair_text. destruct (form_encode k); reflexivity. Qed.

Lemma parse_pair_text (k v : string) :
  parse_pair (pair_text k v) = (utf8_decode k, utf8_decode v).
Proof.
  unfold parse_pair, pair_text. cbn [append].
  rewrite cut_app by (apply form_encode_no_delimiter; unfold delimiter; tauto).
  now rewrite !form_decode_encode.
Qed.

(** Parsing what [toString] wrote gives every name and value back as the
    scalar-value string it was encoded to, for every list of pairs. *)
Lemma parse_params_toString (ps : URLSearchParams) :
  parse_urlencoded (params_toString ps)
  = map (fun p => (as_scalar (fst p), as_scalar (snd p))) ps.
Proof.
  induction ps as [| [k v] rest IH]; [reflexivity | ].
  cbn [params_toString]. fold (pair_text (utf8_encode k) (utf8_encode v)).
  destruct rest as [| p rest].
  - unfold parse_urlencoded.
    rewrite split_on_absent by (apply pair_text_no_amp_hash; tauto).
    cbn [filter]. rewrite pair_text_not_empty. cbn. now rewrite parse_pair_text.
  - unfold parse_urlencoded in *. cbn [append].
    rewrite split_on_app by (apply pair_text_no_amp_hash; tauto).
    cbn [filter]. rewrite pair_text_not_empty. cbn [negb map].
    now rewrite parse_pair_text, IH.
Qed.

(** Well-formed names and values come back as they were. *)
Lemma parse_params_toString_well_formed (ps : URLSearchParams) :
  forallb (fun p => well_formed (fst p) && well_formed (snd p)) ps = true ->
  parse_urlencoded (params_toString ps) = ps.
Proof.
  intros H. rewrite parse_params_toString.
  induction ps as [| [k v] rest IH]; [reflexivity | ].
  cbn [forallb fst snd] in H. apply andb_true_iff in H as [Hkv Hrest].
  apply andb_true_iff in Hkv as [Hk Hv].
  cbn [map fst snd]. now rewrite (as_scalar_well_formed k Hk), (as_scalar_well_formed v Hv), IH.
Qed.

Lemma params_toString_no_hash (sep : ascii) (ps : URLSearchParams) :
  sep = "#"%char \/ sep = "?"%char -> contains sep (params_toString ps) = false.
Proof.
  intros Hsep. induction ps as [| [k v] rest IH]; [reflexivity | ].
  cbn [params_toString]. fold (pair_text (utf8_encode k) (utf8_encode v)).
  destruct rest as [| p rest].
  - apply pair_text_no_amp_hash. tauto.
  - rewrite contains_app, pair_text_no_amp_hash by tauto.
    cbn [append contains orb]. rewrite IH.
    destruct Hsep as [-> | ->]; reflexivity.
Qed.


(** The parameter set holds [query] exactly when the query is not empty and
    [status] exactly when the status is not empty, in that order. *)
Lemma commit_params_shape (q st : string) :
  commit_params q st
  = ((if String.eqb q "" then [] else [("query", q)])
     ++ (if String.eqb st "" then [] else [("status", st)]))%list.
Proof. destruct q, st; reflexivity. Qed.

(** An escape that is no UTF-8 reads back as U+FFFD. *)
Lemma invalid_escape_reads_as_replacement :
  searchParams_of_url "/?query=%E9"
  = {| sp_query := Some replacement; sp_status := None |}.
Proof. reflexivity. Qed.




(** ** The debounced URL commit *)

Lemma advance_idle (d : nat) (s : sync_state) :
  debounce s = None -> advance d s = s.
Proof. intros H. unfold advance. now rewrite H. Qed.

(** An edit that changes its field sets a fresh timer over the new fields and
    navigates nowhere. *)
Lemma edit_arms (e : edit) (s : sync_state) :
  changes e s = true ->
  armed (apply_edit e s)
  /\ nav (apply_edit e s) = nav s
  /\ replace_calls (apply_edit e s) = replace_calls s.
Proof.
  destruct e as [v | v]; cbn [changes apply_edit]; unfold setQuery, setStatus;
    intros H; apply negb_true_iff in H; rewrite H; repeat split.
Qed.

(** An edit that writes the value its field already has leaves the pending
    timer as it is. *)
Lemma edit_without_change (e : edit) (s : sync_state) :
  changes e s = false -> apply_edit e s = s.
Proof.
  destruct e as [v | v]; cbn [changes apply_edit]; unfold setQuery, setStatus;
    intros H; apply negb_false_iff in H; now rewrite H.
Qed.

(** Less than 500ms after the timer was set nothing is committed. *)
Lemma advance_before_due (d : nat) (s : sync_state) :
  armed s -> d < delay ->
  nav (advance d s) = nav s
  /\ replace_calls (advance d s) = replace_calls s
  /\ query (advance d s) = query s
  /\ status (advance d s) = status s.
Proof.
  intros Harmed Hd. unfold advance. rewrite Harmed. cbn [remaining].
  apply Nat.ltb_lt in Hd. rewrite Hd. repeat split.
Qed.

(** Once 500ms have passed the timer fires: one [router.replace], with the
    URL of the fields the timer was set over. *)
Lemma advance_when_due (d : nat) (s : sync_state) :
  armed s -> delay <= d ->
  debounce (advance d s) = None
  /\ replace_calls (advance d s)
     = (replace_calls s ++ [commit_url (query s) (status s)])%list
  /\ current (nav (advance d s)) = commit_url (query s) (status s)
  /\ back_stack (nav (advance d s)) = back_stack (nav s).
Proof.
  intros Harmed Hd. unfold advance. rewrite Harmed. cbn [remaining cb_query cb_status].
  apply Nat.ltb_ge in Hd. rewrite Hd. repeat split.
Qed.

(** While the edits keep coming, the timer is reset each time and the URL
    stays as it was. *)
Lemma rapid_edits_commit_nothing (es : list (nat * edit)) (s : sync_state) :
  armed s -> rapid es s ->
  armed (run_edits es s)
  /\ nav (run_edits es s) = nav s
  /\ replace_calls (run_edits es s) = replace_calls s.
Proof.
  revert s. induction es as [| [d e] es IH]; intros s Harmed Hrapid.
  - repeat split. exact Harmed.
  - cbn [rapid] in Hrapid. destruct Hrapid as (Hd & Hch & Hrest).
    cbn [run_edits].
    destruct (edit_arms e (advance d s) Hch) as (Harmed' & Hnav & Hcalls).
    destruct (advance_before_due d s Harmed Hd) as (Hnav0 & Hcalls0 & _).
    destruct (IH _ Harmed' Hrest) as (Ha & Hn & Hc).
    repeat split; [exact Ha | congruence | congruence].
Qed.

(** Writing a field's present value again is not a change: the timer set
    by the first "a" still fires 500ms after it, before the "b" that comes
    400ms after the second "a". *)
Lemma repeated_value_keeps_the_timer :
  replace_calls
    (run_edits [(0, EditQuery "a"); (400, EditQuery "a"); (400, EditQuery "b")]
       settled_tab)
  = ["/?"; "/?query=a"].
Proof. reflexivity. Qed.

(** One burst from an idle synchroniser: exactly one commit, of the fields as
    the last edit left them, into the current history entry. *)
Lemma burst_commits_once (b : burst) (s : sync_state) :
  debounce s = None ->
  changes (first b) (advance (lead b) s) = true ->
  rapid (more b) (apply_edit (first b) (advance (lead b) s)) ->
  delay <= quiet b ->
  debounce (run_burst b s) = None
  /\ replace_calls (run_burst b s)
     = (replace_calls s ++ [commit_url (query (typed b s)) (status (typed b s))])%list
  /\ current (nav (run_burst b s)) = commit_url (query (typed b s)) (status (typed b s))
  /\ back_stack (nav (run_burst b s)) = back_stack (nav s).
Proof.
  intros Hidle Hch Hrapid Hquiet.
  unfold run_burst, typed in *. rewrite (advance_idle _ _ Hidle) in *.
  destruct (edit_arms _ _ Hch) as (Harmed & Hnav & Hcalls).
  destruct (rapid_edits_commit_nothing _ _ Harmed Hrapid) as (Ha & Hn & Hc).
  destruct (advance_when_due _ _ Ha Hquiet) as (Hd & Hr & Hcur & Hback).
  repeat split; [exact Hd | | exact Hcur | ]; congruence.
Qed.

Lemma last_cons_default {A : Type} (l : list A) (x d : A) :
  last (x :: l) d = last l x.
Proof.
  revert x d. induction l as [| y l IH]; intros x d; [reflexivity | ].
  change (last (x :: y :: l) d) with (last (y :: l) d).
  now rewrite (IH y d), (IH y x).
Qed.

Lemma final_urls_length (bs : list burst) (s : sync_state) :
  length (final_urls bs s) = length bs.
Proof.
  revert s. induction bs as [| b bs IH]; intros s; cbn; [reflexivity | now rewrite IH].
Qed.

(** C1: from an idle synchroniser, run any number of bursts of edits (every
    edit changes its field and follows the one before within 500ms), each
    followed by at least 500ms of quiet. Then [router.replace] is called
    exactly once per burst, with the URL of the field values the burst ended
    on; the history stack behind the current entry never grows; and the URL
    committed for a pair of fields carries [query] only when it is not empty
    and [status] only when it is not empty. *)
Theorem debounce_one_commit_per_quiet_period (bs : list burst) (s : sync_state) :
  debounce s = None ->
  well_spaced bs s ->
  replace_calls (run_bursts bs s) = (replace_calls s ++ final_urls bs s)%list
  /\ length (final_urls bs s) = length bs
  /\ current (nav (run_bursts bs s)) = last (final_urls bs s) (current (nav s))
  /\ back_stack (nav (run_bursts bs s)) = back_stack (nav s)
  /\ debounce (run_bursts bs s) = None
  /\ (forall q st : string,
        commit_url q st
        = "/?" ++ params_toString
                    ((if String.eqb q "" then [] else [("query", q)])
                     ++ (if String.eqb st "" then [] else [("status", st)]))%list).
Proof.
  intros Hidle Hws.
  assert (Hmain :
    replace_calls (run_bursts bs s) = (replace_calls s ++ final_urls bs s)%list
    /\ current (nav (run_bursts bs s)) = last (final_urls bs s) (current (nav s))
    /\ back_stack (nav (run_bursts bs s)) = back_stack (nav s)
    /\ debounce (run_bursts bs s) = None).
  { revert s Hidle Hws. induction bs as [| b bs IH]; intros s Hidle Hws.
    - cbn. rewrite app_nil_r. auto.
    - cbn [well_spaced] in Hws. destruct Hws as (Hch & Hrapid & Hquiet & Hrest).
      destruct (burst_commits_once b s Hidle Hch Hrapid Hquiet)
        as (Hd & Hcalls & Hcur & Hback).
      destruct (IH _ Hd Hrest) as (IHcalls & IHcur & IHback & IHd).
      cbn [run_bursts final_urls].
      repeat split.
      + rewrite IHcalls, Hcalls, <- app_assoc. reflexivity.
      + rewrite IHcur, Hcur. symmetry. apply last_cons_default.
      + congruence.
      + exact IHd. }
  destruct Hmain as (H1 & H2 & H3 & H4).
  repeat split; try assumption.
  - apply final_urls_length.
  - intros q st. unfold commit_url. now rewrite commit_params_shape.
Qed.

(** The theorem at work: "milk" typed letter by letter, then "Pending"
    chosen two seconds later, in a tab whose mount commit has happened. *)
Lemma debounce_one_commit_per_quiet_period_witness :
  debounce settled_tab = None
  /\ well_spaced milk_then_pending settled_tab
  /\ replace_calls (run_bursts milk_then_pending settled_tab)
     = ["/?"; "/?query=milk"; "/?query=milk&status=pending"]
  /\ back_stack (nav (run_bursts milk_then_pending settled_tab)) = ["/welcome"].
Proof.
  assert (Hidle : debounce settled_tab = None) by reflexivity.
  assert (Hws : well_spaced milk_then_pending settled_tab).
  { cbn. unfold delay. repeat split; lia. }
  destruct (debounce_one_commit_per_quiet_period milk_then_pending settled_tab Hidle Hws)
    as (Hcalls & _ & _ & Hback & _).
  split; [exact Hidle | split; [exact Hws | split]].
  - rewrite Hcalls. reflexivity.
  - rewrite Hback. reflexivity.
Defined.

(** * Further properties *)

(** ** The write actions, outcome by outcome *)

Ltac by_action c H :=
  destruct c; cbn [run_write request_of] in *; run_M; rewrite H; cbn.

(** X1: when the transport fails, the action returns
    [{ success: false, error }] with the message of the thrown error (the
    fixed text for a thrown value that is no [Error]); it has sent its one
    request and done nothing else: no log, no invalidation. *)
Theorem write_transport_failure (c : write_call) (w : env) (e : thrown) :
  network w (request_of (BASE_URL w) c) = FetchRejected e ->
  run_write c w
  = ([EFetch (request_of (BASE_URL w) c)], Returns (failed (message_of e))).
Proof. intros H. by_action c H; reflexivity. Qed.

Lemma write_transport_failure_witness :
  run_write (CallRemove "42") (env_reply unreachable)
  = ([EFetch (delete_item "http://localhost:8000" "42")],
     Returns (failed "fetch failed")).
Proof.
  apply (write_transport_failure (CallRemove "42") (env_reply unreachable)
           (ErrorObj "fetch failed")).
  reflexivity.
Defined.

(** X2: when the body of the reply does not parse, the action returns
    [{ success: false, error }] with the parser's message, whether the
    status was a success or not, and neither logs nor invalidates. *)
Theorem write_unparsable_body (c : write_call) (w : env) (b : bool) (e : thrown) :
  network w (request_of (BASE_URL w) c)
  = FetchResponse {| ok := b; body_json := Throws e |} ->
  run_write c w
  = ([EFetch (request_of (BASE_URL w) c)], Returns (failed (message_of e))).
Proof. intros H. by_action c H; destruct b; reflexivity. Qed.

Lemma write_unparsable_body_witness :
  run_write (CallUpdate "42" "pending") (env_reply success_empty_body)
  = ([EFetch (put_item "http://localhost:8000" "42" "pending")],
     Returns (failed "Unexpected end of JSON input")).
Proof.
  apply (write_unparsable_body (CallUpdate "42" "pending")
           (env_reply success_empty_body) true
           (ErrorObj "Unexpected end of JSON input")).
  reflexivity.
Defined.

(** X3: a success reply whose body parses: the action logs the body, then
    invalidates the path "/", then returns [{ success: true }]; these, after
    the request, are all its effects, in this order. *)
Theorem write_success (c : write_call) (w : env) (v : json) :
  network w (request_of (BASE_URL w) c)
  = FetchResponse {| ok := true; body_json := Returns v |} ->
  run_write c w
  = ([EFetch (request_of (BASE_URL w) c); EConsoleLog v; ERevalidatePath "/"],
     Returns succeeded).
Proof. intros H. by_action c H; reflexivity. Qed.

Lemma write_success_witness :
  run_write (CallRemove "42")
    (env_reply (FetchResponse {| ok := true; body_json := Returns (JObj []) |}))
  = ([EFetch (delete_item "http://localhost:8000" "42"); EConsoleLog (JObj []);
      ERevalidatePath "/"],
     Returns succeeded).
Proof.
  apply (write_success (CallRemove "42")
           (env_reply (FetchResponse {| ok := true; body_json := Returns (JObj []) |}))
           (JObj [])).
  reflexivity.
Defined.



(** X5: a non-success reply whose body is not [null] and carries no [error]
    (no such field, the field is [null], or the body is no object at all):
    each of the three actions, the delete and the update too, reports
    "Unable to create todo". *)
Theorem write_fallback_message (c : write_call) (w : env) (v : json) :
  network w (request_of (BASE_URL w) c)
  = FetchResponse {| ok := false; body_json := Returns v |} ->
  v <> JNull ->
  (forall fields, v = JObj fields ->
     assoc "error" fields = None \/ assoc "error" fields = Some JNull) ->
  run_write c w
  = ([EFetch (request_of (BASE_URL w) c); EConsoleLog v],
     Returns (failed "Unable to create todo")).
Proof.
  intros H Hv Hobj.
  by_action c H; destruct v; try congruence; try reflexivity;
    cbn; destruct (Hobj _ eq_refl) as [-> | ->]; reflexivity.
Qed.

Lemma write_fallback_message_witness :
  run_write (CallRemove "42")
    (env_reply (FetchResponse
       {| ok := false; body_json := Returns (JStr "Not Found") |}))
  = ([EFetch (delete_item "http://localhost:8000" "42"); EConsoleLog (JStr "Not Found")],
     Returns (failed "Unable to create todo")).
Proof.
  apply (write_fallback_message (CallRemove "42")
           (env_reply (FetchResponse
              {| ok := false; body_json := Returns (JStr "Not Found") |}))
           (JStr "Not Found")).
  - reflexivity.
  - discriminate.
  - intros fields Hf. discriminate Hf.
Defined.

(** X6: a non-success reply whose body is [null]: reading [result.error]
    throws inside the [try], and the action reports the [TypeError]'s
    message instead of a message of its own. *)
Theorem write_null_body (c : write_call) (w : env) :
  network w (request_of (BASE_URL w) c)
  = FetchResponse {| ok := false; body_json := Returns JNull |} ->
  run_write c w
  = ([EFetch (request_of (BASE_URL w) c); EConsoleLog JNull],
     Returns (failed "Cannot read properties of null (reading 'error')")).
Proof. intros H. by_action c H; reflexivity. Qed.

Lemma write_null_body_witness :
  run_write (CallCreate (staged "buy milk"))
    (env_reply (FetchResponse {| ok := false; body_json := Returns JNull |}))
  = ([EFetch (post_items "http://localhost:8000" (staged "buy milk")); EConsoleLog JNull],
     Returns (failed "Cannot read properties of null (reading 'error')")).
Proof.
  apply (write_null_body (CallCreate (staged "buy milk"))
           (env_reply (FetchResponse {| ok := false; body_json := Returns JNull |}))).
  reflexivity.
Defined.

(** X7: in every environment an action sends exactly one request, shows no
    toast, and invalidates at most once, never a path other than "/". *)
Theorem write_effect_discipline (c : write_call) (w : env) :
  fetches (effects_of (run_write c w)) = [EFetch (request_of (BASE_URL w) c)]
  /\ toasts (effects_of (run_write c w)) = []
  /\ (revalidations (effects_of (run_write c w)) = []
      \/ revalidations (effects_of (run_write c w)) = [ERevalidatePath "/"]).
Proof.
  destruct c; cbn [run_write request_of]; run_M; split_reply w;
    try (repeat split; auto; fail);
    split_json; repeat split; auto.
Qed.

(** X8: whatever string [updateTodoStatus] is given as the current status,
    the status it writes is a value of the enum: "completed" for "pending",
    "pending" for every other string. *)
Theorem updateTodoStatus_writes_enum_value (id status : string) (w : env) :
  fetches (effects_of (updateTodoStatus id status w))
  = [EFetch {| req_method := "PUT";
               req_url := BASE_URL w ++ "/items/" ++ id;
               req_headers := json_headers;
               req_body :=
                 Some (JObj [("status",
                              JStr (status_string
                                      (if String.eqb status "pending"
                                       then completed else pending)))]) |}].
Proof.
  assert (Hreq : put_item (BASE_URL w) id status
                 = {| req_method := "PUT";
                      req_url := BASE_URL w ++ "/items/" ++ id;
                      req_headers := json_headers;
                      req_body :=
                        Some (JObj [("status",
                                     JStr (status_string
                                             (if String.eqb status "pending"
                                              then completed else pending)))]) |}).
  { unfold put_item, toggled. destruct (String.eqb status "pending"); reflexivity. }
  rewrite <- Hreq. run_M. split_reply w; try reflexivity. split_json; reflexivity.
Qed.

(** ** The page, outcome by outcome *)

(** X9: a success reply whose body is an object: [Home] returns the
    [TodoList] element over the body's [data] field ([undefined] when the
    object has none), having sent its one read and nothing else. *)
Theorem Home_ok_passes_data (sp : SearchParams) (w : env) fields :
  network w (items_request (BASE_URL w) sp)
  = FetchResponse {| ok := true; body_json := Returns (JObj fields) |} ->
  Home sp w
  = ([EFetch (items_request (BASE_URL w) sp)],
     Returns (TodoListElement (assoc "data" fields))).
Proof.
  unfold items_request. intros H. run_M. cbn in H. rewrite H. reflexivity.
Qed.

Lemma Home_ok_passes_data_witness :
  Home {| sp_query := Some "buy"; sp_status := None |}
    (env_reply (FetchResponse
       {| ok := true; body_json := Returns (JObj [("items", JArr [])]) |}))
  = ([EFetch (items_request "http://localhost:8000"
                {| sp_query := Some "buy"; sp_status := None |})],
     Returns (TodoListElement None)).
Proof.
  apply (Home_ok_passes_data {| sp_query := Some "buy"; sp_status := None |}
           (env_reply (FetchResponse
              {| ok := true; body_json := Returns (JObj [("items", JArr [])]) |}))
           [("items", JArr [])]).
  reflexivity.
Defined.

(** X10: a success reply whose body does not parse: [Home] returns no
    element, neither list nor error panel; it rejects with the parser's
    error. *)
Theorem Home_ok_unparsable_body_throws (sp : SearchParams) (w : env) (e : thrown) :
  network w (items_request (BASE_URL w) sp)
  = FetchResponse {| ok := true; body_json := Throws e |} ->
  Home sp w = ([EFetch (items_request (BASE_URL w) sp)], Throws e).
Proof.
  unfold items_request. intros H. run_M. cbn in H. rewrite H. reflexivity.
Qed.

Lemma Home_ok_unparsable_body_throws_witness :
  Home {| sp_query := None; sp_status := None |} (env_reply success_empty_body)
  = ([EFetch (items_request "http://localhost:8000"
                {| sp_query := None; sp_status := None |})],
     Throws (ErrorObj "Unexpected end of JSON input")).
Proof.
  apply (Home_ok_unparsable_body_throws {| sp_query := None; sp_status := None |}
           (env_reply success_empty_body)
           (ErrorObj "Unexpected end of JSON input")).
  reflexivity.
Defined.

(** X11: a reply that is not a success: [Home] returns the error panel
    without reading the body (a body that would not parse makes no
    difference), whatever the search parameters. *)
Theorem Home_not_ok_panel_body_unread (sp : SearchParams) (w : env) (r : response) :
  network w (items_request (BASE_URL w) sp) = FetchResponse r ->
  ok r = false ->
  Home sp w = ([EFetch (items_request (BASE_URL w) sp)], Returns error_panel).
Proof.
  unfold items_request. intros H Hok. run_M. cbn in H. rewrite H. cbn. rewrite Hok. reflexivity.
Qed.

Lemma Home_not_ok_panel_body_unread_witness :
  Home {| sp_query := Some "buy"; sp_status := Some "pending" |}
    (env_reply (FetchResponse
       {| ok := false; body_json := Throws (ErrorObj "Unexpected token <") |}))
  = ([EFetch (items_request "http://localhost:8000"
                {| sp_query := Some "buy"; sp_status := Some "pending" |})],
     Returns error_panel).
Proof.
  apply (Home_not_ok_panel_body_unread
           {| sp_query := Some "buy"; sp_status := Some "pending" |}
           (env_reply (FetchResponse
              {| ok := false; body_json := Throws (ErrorObj "Unexpected token <") |}))
           {| ok := false; body_json := Throws (ErrorObj "Unexpected token <") |}).
  - reflexivity.
  - reflexivity.
Defined.

(** ** What the API receives from [Home] *)

Lemma unreserved_encode_byte (c : ascii) :
  is_unreserved c = true -> encode_byte c = String c "".
Proof.
  destruct c as [[] [] [] [] [] [] [] []]; intros H;
    first [reflexivity | discriminate H].
Qed.

Lemma unreserved_form_encode (s : string) :
  all_unreserved s = true -> form_encode s = s.
Proof.
  induction s as [| c s IH]; [reflexivity | ].
  cbn [all_unreserved form_encode]. intros H.
  apply andb_true_iff in H as [Hc Hs].
  rewrite (unreserved_encode_byte c Hc), (IH Hs). reflexivity.
Qed.

Lemma unreserved_single (c : ascii) :
  is_unreserved c = true -> classify c = Single.
Proof.
  destruct c as [[] [] [] [] [] [] [] []]; intros H;
    first [reflexivity | discriminate H].
Qed.

Lemma unreserved_well_formed (s : string) :
  all_unreserved s = true -> well_formed s = true.
Proof.
  induction s as [| c s IH]; [reflexivity | ].
  cbn [all_unreserved well_formed]. intros H.
  apply andb_true_iff in H as [Hc Hs].
  rewrite (unreserved_single c Hc). exact (IH Hs).
Qed.

Lemma contains_cut_prefix (c sep : ascii) (s : string) :
  contains c s = false -> contains c (fst (cut sep s)) = false.
Proof.
  induction s as [| x s IH]; cbn; [reflexivity | ].
  intros H. apply orb_false_iff in H as [Hx Hs].
  destruct (Ascii.eqb x sep); [reflexivity | ].
  specialize (IH Hs). destruct (cut sep s) as [a b]. cbn in *.
  now rewrite Hx, IH.
Qed.

(** The query of a URL made of a base without [?] and [#], a path and a
    serialised parameter set. *)
Lemma search_of_items_url (base : string) (ps : URLSearchParams) :
  contains "?" base = false -> contains "#" base = false ->
  search_of_url (base ++ "/items?" ++ params_toString ps) = params_toString ps.
Proof.
  intros Hq Hh. unfold search_of_url.
  rewrite (cut_absent "#").
  - cbn [fst].
    change (base ++ "/items?" ++ params_toString ps)
      with (base ++ "/items" ++ String "?" (params_toString ps)).
    rewrite <- append_assoc, cut_app; [reflexivity | ].
    rewrite contains_app, Hq. reflexivity.
  - rewrite contains_app, Hh. cbn [append contains orb].
    rewrite params_toString_no_hash by tauto. reflexivity.
Qed.

(** X12: filter values made of letters, digits and [*-._] reach the API as
    they are: the query of the request [Home] sends parses to
    [query = q], [status = s]. *)
Theorem Home_forwards_plain_values (base q s : string) :
  contains "?" base = false -> contains "#" base = false ->
  all_unreserved q = true -> all_unreserved s = true ->
  parse_urlencoded
    (search_of_url
       (req_url (items_request base {| sp_query := Some q; sp_status := Some s |})))
  = [("query", q); ("status", s)].
Proof.
  intros Hq Hh Huq Hus.
  assert (Hurl : req_url (items_request base {| sp_query := Some q; sp_status := Some s |})
                 = base ++ "/items?" ++ params_toString [("query", q); ("status", s)]).
  { unfold items_request.
    cbn [req_url sp_query sp_status nullish_str params_toString].
    rewrite !utf8_encode_well_formed
      by first [reflexivity | apply unreserved_well_formed; assumption].
    rewrite !unreserved_form_encode by (assumption || reflexivity).
    rewrite ?append_assoc. cbn [append]. rewrite ?append_assoc. reflexivity. }
  rewrite Hurl, search_of_items_url by assumption.
  apply parse_params_toString_well_formed. cbn [forallb fst snd].
  rewrite !unreserved_well_formed by first [assumption | reflexivity]. reflexivity.
Qed.

Lemma Home_forwards_plain_values_witness :
  parse_urlencoded
    (search_of_url
       (req_url (items_request "http://localhost:8000"
                   {| sp_query := Some "buy"; sp_status := Some "pending" |})))
  = [("query", "buy"); ("status", "pending")].
Proof.
  apply (Home_forwards_plain_values "http://localhost:8000" "buy" "pending");
    reflexivity.
Defined.

(** X13: [Home] puts the values into the request URL as they are, without
    encoding them: a [query] value that contains [&status=a] (and no
    [status] parameter at all) makes the API's first [status] parameter
    [a]. *)
Theorem Home_query_value_can_set_status (base q a : string) :
  contains "?" base = false -> contains "#" base = false ->
  all_unreserved q = true -> all_unreserved a = true ->
  parse_urlencoded
    (search_of_url
       (req_url (items_request base
                   {| sp_query := Some (q ++ "&status=" ++ a); sp_status := None |})))
  = [("query", q); ("status", a); ("status", "")].
Proof.
  intros Hq Hh Huq Hua.
  assert (Hurl : req_url (items_request base
                            {| sp_query := Some (q ++ "&status=" ++ a); sp_status := None |})
                 = base ++ "/items?"
                   ++ params_toString [("query", q); ("status", a); ("status", "")]).
  { unfold items_request.
    cbn [req_url sp_query sp_status nullish_str params_toString].
    rewrite !utf8_encode_well_formed
      by first [reflexivity | apply unreserved_well_formed; assumption].
    rewrite !unreserved_form_encode by (assumption || reflexivity).
    rewrite ?append_assoc. cbn [append]. rewrite ?append_assoc. reflexivity. }
  rewrite Hurl, search_of_items_url by assumption.
  apply parse_params_toString_well_formed. cbn [forallb fst snd].
  rewrite !unreserved_well_formed by first [assumption | reflexivity]. reflexivity.
Qed.

Lemma Home_query_value_can_set_status_witness :
  assoc "status"
    (parse_urlencoded
       (search_of_url
          (req_url (items_request "http://localhost:8000"
                      {| sp_query := Some "milk&status=completed";
                         sp_status := None |}))))
  = Some "completed".
Proof.
  change "milk&status=completed" with ("milk" ++ "&status=" ++ "completed").
  rewrite (Home_query_value_can_set_status "http://localhost:8000" "milk" "completed");
    reflexivity.
Defined.

(** X14: a URL without [?] carries no filter: both search parameters are
    [undefined], and [Home] asks for [/items?query=&status=]. *)
Theorem Home_url_without_query (url : string) (w : env) :
  contains "?" url = false ->
  searchParams_of_url url = {| sp_query := None; sp_status := None |}
  /\ fetches (effects_of (Home (searchParams_of_url url) w))
     = [EFetch {| req_method := "GET";
                  req_url := BASE_URL w ++ "/items?query=&status=";
                  req_headers := [];
                  req_body := None |}].
Proof.
  intros H.
  assert (Hsp : searchParams_of_url url = {| sp_query := None; sp_status := None |}).
  { unfold searchParams_of_url, search_of_url.
    rewrite (cut_absent "?") by (apply contains_cut_prefix; exact H).
    reflexivity. }
  split; [exact Hsp | ].
  rewrite Hsp, Home_request. reflexivity.
Qed.

Lemma Home_url_without_query_witness :
  searchParams_of_url "/#top" = {| sp_query := None; sp_status := None |}.
Proof.
  apply (Home_url_without_query "/#top" (env_reply unreachable)). reflexivity.
Defined.

(** ** The synchroniser over arbitrary sessions *)

(** X15: the fields start empty whatever the URL is, so 500ms after the
    mount, without any edit, the synchroniser replaces the current entry by
    the bare URL "/?": a filter the page was opened with is dropped from
    the URL. *)
Theorem mount_commits_bare_url (h : history) (d : nat) :
  delay <= d ->
  replace_calls (advance d (mount h)) = ["/?"]
  /\ current (nav (advance d (mount h))) = "/?"
  /\ back_stack (nav (advance d (mount h))) = back_stack h
  /\ debounce (advance d (mount h)) = None.
Proof.
  intros Hd. apply Nat.ltb_ge in Hd.
  unfold advance, mount, run_effect. cbn [debounce remaining].
  rewrite Hd. repeat split.
Qed.

Lemma mount_commits_bare_url_witness :
  current (nav (advance 500 (mount filtered_tab))) = "/?".
Proof.
  apply (mount_commits_bare_url filtered_tab 500). unfold delay. lia.
Defined.

Lemma step_keeps_timer_fresh (ev : event) (s : sync_state) :
  timer_fresh s -> timer_fresh (step ev s).
Proof.
  unfold timer_fresh. destruct ev as [d | [v | v]]; cbn [step apply_edit].
  - unfold advance. destruct (debounce s) as [t |] eqn:Ht; [ | now rewrite Ht].
    intros (Hq & Hs & Hpos & Hle).
    destruct (d <? remaining t)%nat eqn:Hd; cbn; [ | exact I].
    apply Nat.ltb_lt in Hd. repeat split; try assumption; lia.
  - unfold setQuery. destruct (String.eqb v (query s)); [auto | ].
    intros _. cbn. unfold delay. repeat split; lia.
  - unfold setStatus. destruct (String.eqb v (status s)); [auto | ].
    intros _. cbn. unfold delay. repeat split; lia.
Qed.

Lemma mount_timer_fresh (h : history) : timer_fresh (mount h).
Proof. unfold timer_fresh, mount, run_effect, delay. cbn. repeat split; lia. Qed.

Lemma run_keeps_timer_fresh (evs : list event) (s : sync_state) :
  timer_fresh s -> timer_fresh (run_events evs s).
Proof.
  revert s. induction evs as [| ev evs IH]; intros s H; [exact H | ].
  cbn [run_events]. apply IH, step_keeps_timer_fresh, H.
Qed.

(** X16: through every session of edits and waits after the mount, a
    pending timer closes over the fields as they are at that moment (no
    commit of a stale value can be pending) and is due within 500ms. *)
Theorem pending_timer_never_stale (evs : list event) (h : history) :
  forall t, debounce (run_events evs (mount h)) = Some t ->
    cb_query t = query (run_events evs (mount h))
    /\ cb_status t = status (run_events evs (mount h))
    /\ 0 < remaining t /\ remaining t <= delay.
Proof.
  intros t Ht.
  pose proof (run_keeps_timer_fresh evs (mount h) (mount_timer_fresh h)) as H.
  unfold timer_fresh in H. rewrite Ht in H. exact H.
Qed.

Lemma pending_timer_never_stale_witness :
  debounce (run_events a_session (mount filtered_tab))
  = Some {| remaining := 500; cb_query := ""; cb_status := "completed" |}
  /\ status (run_events a_session (mount filtered_tab)) = "completed".
Proof.
  assert (Ht : debounce (run_events a_session (mount filtered_tab))
               = Some {| remaining := 500; cb_query := ""; cb_status := "completed" |})
    by reflexivity.
  split; [exact Ht | ].
  destruct (pending_timer_never_stale a_session filtered_tab _ Ht) as (_ & Hs & _).
  symmetry. exact Hs.
Defined.

Lemma step_history (ev : event) (s : sync_state) :
  back_stack (nav (step ev s)) = back_stack (nav s)
  /\ exists more, replace_calls (step ev s) = (replace_calls s ++ more)%list
                  /\ length more <= 1.
Proof.
  destruct ev as [d | [v | v]]; cbn [step apply_edit].
  - unfold advance. destruct (debounce s) as [t |].
    + destruct (d <? remaining t)%nat; cbn.
      * split; [reflexivity | exists []; rewrite app_nil_r; auto].
      * split; [reflexivity | eexists; split; [reflexivity | cbn; lia]].
    + split; [reflexivity | exists []; rewrite app_nil_r; auto].
  - unfold setQuery. destruct (String.eqb v (query s)); cbn;
      (split; [reflexivity | exists []; rewrite app_nil_r; auto]).
  - unfold setStatus. destruct (String.eqb v (status s)); cbn;
      (split; [reflexivity | exists []; rewrite app_nil_r; auto]).
Qed.

(** X17: no session of edits and waits, from any state, ever pushes a
    history entry or rewrites one behind the current entry, and the
    synchroniser only ever adds to the navigations it has made. *)
Theorem session_never_pushes_history (evs : list event) (s : sync_state) :
  back_stack (nav (run_events evs s)) = back_stack (nav s)
  /\ exists more, replace_calls (run_events evs s) = (replace_calls s ++ more)%list.
Proof.
  revert s. induction evs as [| ev evs IH]; intros s.
  - split; [reflexivity | exists []; now rewrite app_nil_r].
  - cbn [run_events].
    destruct (IH (step ev s)) as (Hb & more & Hc).
    destruct (step_history ev s) as (Hb1 & more1 & Hc1 & _).
    split; [congruence | ].
    exists (more1 ++ more)%list. rewrite Hc, Hc1, app_assoc. reflexivity.
Qed.

Lemma step_keeps_url_in_sync (ev : event) (s : sync_state) :
  timer_fresh s -> url_in_sync s -> url_in_sync (step ev s).
Proof.
  unfold timer_fresh, url_in_sync. destruct ev as [d | [v | v]]; cbn [step apply_edit].
  - unfold advance. destruct (debounce s) as [t |] eqn:Ht; [ | now rewrite Ht].
    intros (Hq & Hs & _) _.
    destruct (d <? remaining t)%nat; cbn; [exact I | congruence].
  - unfold setQuery. destruct (String.eqb v (query s)); [auto | ].
    intros _ _. exact I.
  - unfold setStatus. destruct (String.eqb v (status s)); [auto | ].
    intros _ _. exact I.
Qed.

Lemma run_keeps_url_in_sync (evs : list event) (s : sync_state) :
  timer_fresh s -> url_in_sync s -> url_in_sync (run_events evs s).
Proof.
  revert s. induction evs as [| ev evs IH]; intros s Hf Hu; [exact Hu | ].
  cbn [run_events].
  apply IH; [apply step_keeps_timer_fresh, Hf | apply step_keeps_url_in_sync; assumption].
Qed.

(** X18: after any session of edits and waits since the mount, edits that
    repeat a value included, 500ms of quiet leave no timer pending and the
    current history entry at the URL of the fields as they are. *)
Theorem quiet_brings_url_to_fields (evs : list event) (h : history) (d : nat) :
  delay <= d ->
  debounce (advance d (run_events evs (mount h))) = None
  /\ current (nav (advance d (run_events evs (mount h))))
     = commit_url (query (run_events evs (mount h))) (status (run_events evs (mount h)))
  /\ query (advance d (run_events evs (mount h))) = query (run_events evs (mount h))
  /\ status (advance d (run_events evs (mount h))) = status (run_events evs (mount h)).
Proof.
  intros Hd.
  pose proof (run_keeps_timer_fresh evs (mount h) (mount_timer_fresh h)) as Hf.
  assert (Hu : url_in_sync (run_events evs (mount h))).
  { apply run_keeps_url_in_sync; [apply mount_timer_fresh | exact I]. }
  unfold timer_fresh, url_in_sync, advance in *.
  destruct (debounce (run_events evs (mount h))) as [t |] eqn:Ht.
  - destruct Hf as (Hq & Hs & _ & Hle).
    assert (Hfire : (d <? remaining t)%nat = false) by (apply Nat.ltb_ge; lia).
    rewrite Hfire. cbn. repeat split; congruence.
  - rewrite Ht. repeat split. exact Hu.
Qed.

Lemma quiet_brings_url_to_fields_witness :
  current (nav (advance 500 (run_events a_session (mount filtered_tab))))
  = "/?status=completed".
Proof.
  destruct (quiet_brings_url_to_fields a_session filtered_tab 500) as (_ & H & _).
  - unfold delay. lia.
  - rewrite H. reflexivity.
Defined.

Lemma step_commit_budget (ev : event) (s : sync_state) :
  length (replace_calls (step ev s))
  + match debounce (step ev s) with Some _ => 1 | None => 0 end
  <= length (replace_calls s) + match debounce s with Some _ => 1 | None => 0 end
     + match ev with Edit _ => 1 | Wait _ => 0 end.
Proof.
  destruct ev as [d | [v | v]]; cbn [step apply_edit].
  - unfold advance. destruct (debounce s) as [t |] eqn:Ht.
    + destruct (d <? remaining t)%nat; cbn; [lia | ].
      rewrite length_app. cbn. lia.
    + rewrite Ht. lia.
  - unfold setQuery. destruct (String.eqb v (query s)); cbn;
      destruct (debounce s); lia.
  - unfold setStatus. destruct (String.eqb v (status s)); cbn;
      destruct (debounce s); lia.
Qed.

Lemma run_commit_budget (evs : list event) (s : sync_state) :
  length (replace_calls (run_events evs s))
  + match debounce (run_events evs s) with Some _ => 1 | None => 0 end
  <= length (replace_calls s) + match debounce s with Some _ => 1 | None => 0 end + count_edits evs.
Proof.
  revert s. induction evs as [| ev evs IH]; intros s; [cbn; lia | ].
  cbn [run_events]. specialize (IH (step ev s)).
  pose proof (step_commit_budget ev s) as Hs.
  destruct ev; cbn [count_edits]; lia.
Qed.

(** X19: the synchroniser never navigates more often than the fields were
    written: after any session since the mount, the number of
    [router.replace] calls is at most one (the mount's) plus the number of
    edits. *)
Theorem commits_bounded_by_edits (evs : list event) (h : history) :
  length (replace_calls (run_events evs (mount h))) <= 1 + count_edits evs.
Proof.
  pose proof (run_commit_budget evs (mount h)) as H.
  cbn in H. destruct (debounce (run_events evs (mount h))); lia.
Qed.

(** X20: once the component is unmounted its timer is cleared: however much
    time passes afterwards, nothing is committed and the state stays as the
    unmount left it. *)
Theorem unmount_cancels_commit (ds : list nat) (s : sync_state) :
  run_events (map Wait ds) (unmount s) = unmount s.
Proof.
  induction ds as [| d ds IH]; [reflexivity | ].
  cbn [map run_events step]. rewrite advance_idle by reflexivity. exact IH.
Qed.

(** ** The component's controls *)

(** X21: what is typed into the input is what the Add button posts: after
    [onChange] with the text [v], a click on Add sends one
    [POST /items] whose body is [{ task: v, status: "pending" }] and sends
    it for every [v], the empty text included, and whether or not an
    earlier add is still shown as loading. *)
Theorem typed_text_is_posted (st : component_state) (v : string) (w : env) :
  run_handler (OnChange v) st w = ([], Returns (setTodo (staged v) st))
  /\ fetches (effects_of (run_handler OnAddTodo (setTodo (staged v) st) w))
     = [EFetch {| req_method := "POST";
                  req_url := BASE_URL w ++ "/items";
                  req_headers := json_headers;
                  req_body := Some (JObj [("task", JStr v);
                                          ("status", JStr "pending")]) |}].
Proof.
  split; [reflexivity | ].
  run_M. split_reply w; try reflexivity. split_json; reflexivity.
Qed.

(** X22: the two buttons of a row act on that row's item and on nothing
    else: the status button sends the [PUT] for the item's id with its
    current status toggled, the delete button the [DELETE] for the item's
    id; whatever the outcome, the handler completes normally and leaves the
    component state as it was. *)
Theorem row_controls_target_their_item (t : Todo) (st : component_state) (w : env) :
  (completion_of (run_handler (toggle_onClick (render_row t)) st w) = Returns st
   /\ fetches (effects_of (run_handler (toggle_onClick (render_row t)) st w))
      = [EFetch (put_item (BASE_URL w) (todo_id t) (status_string (todo_status t)))])
  /\ (completion_of (run_handler (delete_onClick (render_row t)) st w) = Returns st
      /\ fetches (effects_of (run_handler (delete_onClick (render_row t)) st w))
         = [EFetch (delete_item (BASE_URL w) (todo_id t))]).
Proof.
  split; cbn [render_row toggle_onClick delete_onClick];
    run_M; split_reply w; try (split; reflexivity);
    split_json; split; reflexivity.
Qed.

(** X23: the status button says what its click does: its title is
    "Mark as " followed by the status that [updateTodoStatus] will write
    for the item, and it shows the check icon exactly for a completed
    item. *)
Theorem toggle_title_names_written_status (t : Todo) :
  toggle_title (render_row t)
  = "Mark as " ++ toggled (status_string (todo_status t))
  /\ toggle_icon (render_row t)
     = match todo_status t with completed => CircleCheck | pending => CircleXIcon end.
Proof.
  unfold render_row. destruct (todo_status t); split; reflexivity.
Qed.

(** How a run of [addTodo] ends, from the reply to its request. *)
Lemma addTodo_completion (st : component_state) (w : env) :
  completion_of (addTodo st w)
  = Returns (if accepted (network w (post_items (BASE_URL w) (todo st)))
             then initial_state else setLoading true st).
Proof.
  run_M. split_reply w; try reflexivity. split_json; reflexivity.
Qed.

(** X24: a failed add followed by a click on Add that succeeds: the first
    leaves the spinner on and the text in place, the second posts that same
    text again and then brings the component back to its initial state
    (spinner off, input empty). *)
Theorem retry_after_failed_add (st : component_state) (w1 w2 : env) :
  accepted (network w1 (post_items (BASE_URL w1) (todo st))) = false ->
  accepted (network w2 (post_items (BASE_URL w2) (todo st))) = true ->
  exists st1,
    completion_of (addTodo st w1) = Returns st1
    /\ loading st1 = true /\ todo st1 = todo st
    /\ fetches (effects_of (addTodo st1 w2))
       = [EFetch (post_items (BASE_URL w2) (todo st))]
    /\ completion_of (addTodo st1 w2) = Returns initial_state.
Proof.
  intros H1 H2. exists (setLoading true st).
  split; [rewrite addTodo_completion, H1; reflexivity | ].
  split; [reflexivity | split; [reflexivity | ]].
  split.
  - run_M. split_reply w2; try reflexivity. split_json; reflexivity.
  - rewrite addTodo_completion. cbn [todo setLoading]. rewrite H2. reflexivity.
Qed.

Lemma retry_after_failed_add_witness :
  exists st1,
    completion_of (addTodo (setTodo (staged "buy milk") initial_state)
                     (env_reply task_required)) = Returns st1
    /\ loading st1 = true /\ todo st1 = staged "buy milk"
    /\ fetches (effects_of
         (addTodo st1 (env_reply (FetchResponse
            {| ok := true; body_json := Returns (JObj []) |}))))
       = [EFetch (post_items "http://localhost:8000" (staged "buy milk"))]
    /\ completion_of
         (addTodo st1 (env_reply (FetchResponse
            {| ok := true; body_json := Returns (JObj []) |})))
       = Returns initial_state.
Proof.
  apply (retry_after_failed_add (setTodo (staged "buy milk") initial_state)
           (env_reply task_required)
           (env_reply (FetchResponse {| ok := true; body_json := Returns (JObj []) |})));
    reflexivity.
Defined.
